(** * Snyk scan service: normaliser, remediation planner and request pipeline

    A shallow embedding of the server side of the repository:

    - [summarizePackages], [generateWithOpenAI], [generateFallback] and
      [generate] of the [ActionPlanAgent] class (the planner with the
      delegated path), and the older list-returning planner of
      [src/actionPlanAgent.js] (module [Legacy]);
    - [buildHelpfulErrorDetail], [cleanUpDir], [deriveRepoName],
      [formatSnykPayload] and the [POST /api/scan] handler of the server.

    Values that come out of [JSON.parse] are untyped in the source, and the
    code guards them with [Array.isArray], [typeof], [?.] and [||]; they are
    modelled by the type [value] of JavaScript values, with the coercions the
    code relies on written out.  Object literals the code builds itself are
    records.  Code that can throw returns in the monad [Exn]. *)

From Stdlib Require Import String Ascii List ZArith Lia Bool Arith DecimalString.
Import ListNotations.
Local Open Scope string_scope.
Local Open Scope list_scope.

(* ================================================================== *)
(** ** Exceptions *)

(** What a [throw] carries.  The handlers of the source only read
    [err.message], so an exception is its kind and message. *)
Inductive error : Type :=
| TypeError
| SyntaxError
| Error (message : string).

Inductive Exn (A : Type) : Type :=
| Ok (a : A)
| Throw (e : error).
Arguments Ok {A} a.
Arguments Throw {A} e.

Definition bind {A B : Type} (m : Exn A) (k : A -> Exn B) : Exn B :=
  match m with
  | Ok a => k a
  | Throw e => Throw e
  end.

Notation "x <- m ;; k" := (bind m (fun x => k))
  (at level 61, m at next level, right associativity).

(** [try { m } catch (err) { h err }] *)
Definition try_catch {A : Type} (m : Exn A) (h : error -> A) : A :=
  match m with
  | Ok a => a
  | Throw e => h e
  end.

Section MapM.
Context {A B : Type} (f : A -> Exn B).

(** [l.map(f)] for a callback that can throw: the first throw ends it. *)
Fixpoint mapM (l : list A) : Exn (list B) :=
  match l with
  | [] => Ok []
  | a :: l' => b <- f a ;; bs <- mapM l' ;; Ok (b :: bs)
  end.
End MapM.

(* ================================================================== *)
(** ** Text *)

Module Text.

(** White space removed by [String.prototype.trim], on ASCII text. *)
Definition is_space (c : ascii) : bool :=
  let n := nat_of_ascii c in
  ((n =? 32) || ((9 <=? n) && (n <=? 13)))%nat.

Fixpoint trim_start (s : string) : string :=
  match s with
  | String c s' => if is_space c then trim_start s' else s
  | EmptyString => EmptyString
  end.

Fixpoint trim_end (s : string) : string :=
  match s with
  | EmptyString => EmptyString
  | String c s' =>
      match trim_end s' with
      | EmptyString => if is_space c then EmptyString else String c EmptyString
      | rest => String c rest
      end
  end.

(** [s.trim()] *)
Definition trim (s : string) : string := trim_end (trim_start s).

(** [s.replace(/suffix$/, '')] for a literal [suffix]: the one match at
    the end of the input, if there is one, is removed. *)
Fixpoint strip_suffix (suffix s : string) : string :=
  if String.eqb s suffix then EmptyString
  else match s with
       | EmptyString => EmptyString
       | String c s' => String c (strip_suffix suffix s')
       end.

(** [s.split(sep)] for a one-character separator. *)
Fixpoint split (sep : ascii) (s : string) : list string :=
  match s with
  | EmptyString => [EmptyString]
  | String c s' =>
      if Ascii.eqb c sep then EmptyString :: split sep s'
      else match split sep s' with
           | [] => [String c EmptyString]
           | seg :: segs => String c seg :: segs
           end
  end.

(** [hay.includes(needle)] *)
Fixpoint includes (needle hay : string) : bool :=
  String.prefix needle hay
  || match hay with
     | EmptyString => false
     | String _ hay' => includes needle hay'
     end.

Definition lower_char (c : ascii) : ascii :=
  let n := nat_of_ascii c in
  if ((65 <=? n) && (n <=? 90))%nat then ascii_of_nat (n + 32) else c.

Definition upper_char (c : ascii) : ascii :=
  let n := nat_of_ascii c in
  if ((97 <=? n) && (n <=? 122))%nat then ascii_of_nat (n - 32) else c.

(** [s.toLowerCase()], on ASCII letters. *)
Fixpoint toLowerCase (s : string) : string :=
  match s with
  | EmptyString => EmptyString
  | String c s' => String (lower_char c) (toLowerCase s')
  end.

(** [`${s.charAt(0).toUpperCase()}${s.slice(1)}`] *)
Definition capitalize (s : string) : string :=
  match s with
  | EmptyString => EmptyString
  | String c s' => String (upper_char c) s'
  end.

(** [l.join(sep)] on a list of strings. *)
Definition join (sep : string) (l : list string) : string :=
  String.concat sep l.

Definition nonempty (s : string) : bool :=
  match s with
  | EmptyString => false
  | String _ _ => true
  end.

End Text.

(* ================================================================== *)
(** ** JavaScript values *)

Set Warnings "-register-all".

(** Numbers are the integers, printed in decimal: the code tests numbers
    for truthiness, puts them in a [Set] and prints them, and never computes
    with them. *)
Inductive value : Type :=
| Undefined
| Null
| Bool (b : bool)
| Num (n : Z)
| Str (s : string)
| Arr (items : list value)
| Obj (props : list (string * value)).

Module Js.

(** [Boolean(v)], the test of [if], [!], [||], [&&] and [filter(Boolean)]. *)
Definition truthy (v : value) : bool :=
  match v with
  | Undefined | Null => false
  | Bool b => b
  | Num n => negb (n =? 0)%Z
  | Str s => Text.nonempty s
  | Arr _ | Obj _ => true
  end.

(** [a || b] *)
Definition or (a b : value) : value := if truthy a then a else b.

(** [Array.isArray(v)] *)
Definition isArray (v : value) : bool :=
  match v with
  | Arr _ => true
  | _ => false
  end.

(** [typeof v === 'object'] *)
Definition typeof_object (v : value) : bool :=
  match v with
  | Null | Arr _ | Obj _ => true
  | _ => false
  end.

(** [typeof v === 'string'] *)
Definition typeof_string (v : value) : bool :=
  match v with
  | Str _ => true
  | _ => false
  end.

Definition nullish (v : value) : bool :=
  match v with
  | Undefined | Null => true
  | _ => false
  end.

Fixpoint lookup (k : string) (props : list (string * value)) : value :=
  match props with
  | [] => Undefined
  | (k', v) :: props' => if String.eqb k k' then v else lookup k props'
  end.

Definition has_own (k : string) (props : list (string * value)) : bool :=
  existsb (fun kv => String.eqb k (fst kv)) props.

(** [v.k], for the property names the source reads off parsed data.
    None of them is a property of [Object.prototype], [Array.prototype],
    [String.prototype] or the other built-in prototypes, so only own
    properties of objects answer; reading a property of [null] or
    [undefined] throws. *)
Definition get (v : value) (k : string) : Exn value :=
  match v with
  | Undefined | Null => Throw TypeError
  | Obj props => Ok (lookup k props)
  | _ => Ok Undefined
  end.

(** [v?.k] *)
Definition get_opt (v : value) (k : string) : value :=
  match v with
  | Obj props => lookup k props
  | _ => Undefined
  end.

(** Decimal digits of an index, the name of an array-like property. *)
Definition index_name (i : nat) : string :=
  NilZero.string_of_uint (Nat.to_uint i).

(** [v?.[i]] *)
Definition at_opt (v : value) (i : nat) : value :=
  match v with
  | Arr items => nth i items Undefined
  | Str s => match String.get i s with
             | Some c => Str (String c EmptyString)
             | None => Undefined
             end
  | Obj props => lookup (index_name i) props
  | _ => Undefined
  end.

(** [v === s] for a string [s]. *)
Definition strict_eq_str (v : value) (s : string) : bool :=
  match v with
  | Str t => String.eqb t s
  | _ => false
  end.

(** SameValueZero, the equality of [Set], between two values held in
    different places of parsed data: primitives compare by value, and two
    objects or arrays are two references, never the same. *)
Definition same_value_zero (a b : value) : bool :=
  match a, b with
  | Undefined, Undefined => true
  | Null, Null => true
  | Bool x, Bool y => Bool.eqb x y
  | Num x, Num y => (x =? y)%Z
  | Str x, Str y => String.eqb x y
  | _, _ => false
  end.

(** [ToString(v)], the coercion of [join], of template literals, of
    [String(v)] and of computed property names.  An array prints its
    elements joined by commas, [null] and [undefined] elements as the
    empty text.  An object prints through [Object.prototype.toString]
    unless it has an own [toString] property: parsed data holds no
    function, so that property is not callable, [valueOf] returns the
    object itself, and the coercion throws. *)
Fixpoint to_string (v : value) : Exn string :=
  match v with
  | Undefined => Ok "undefined"
  | Null => Ok "null"
  | Bool true => Ok "true"
  | Bool false => Ok "false"
  | Num n => Ok (NilZero.string_of_int (Z.to_int n))
  | Str s => Ok s
  | Arr items =>
      parts <- mapM (fun x => if nullish x then Ok "" else to_string x) items ;;
      Ok (Text.join "," parts)
  | Obj props =>
      if has_own "toString" props then Throw TypeError
      else Ok "[object Object]"
  end.

(** [l.join(sep)] on a list of values. *)
Definition join (sep : string) (l : list value) : Exn string :=
  parts <- mapM (fun x => if nullish x then Ok "" else to_string x) l ;;
  Ok (Text.join sep parts).

End Js.

Section FilterM.
Context {A : Type} (p : A -> Exn bool).

(** [l.filter(p)] for a predicate that can throw. *)
Fixpoint filterM (l : list A) : Exn (list A) :=
  match l with
  | [] => Ok []
  | a :: l' =>
      keep <- p a ;;
      rest <- filterM l' ;;
      Ok (if keep then a :: rest else rest)
  end.
End FilterM.

(* ================================================================== *)
(** ** The remediation planner ([ActionPlanAgent]) *)

Definition severityOrder : list string := ["critical"; "high"; "medium"; "low"].

(** [new Set(l)], as the list of its elements in insertion order. *)
Definition set_add (s : list value) (x : value) : list value :=
  if existsb (Js.same_value_zero x) s then s else s ++ [x].

Definition new_Set (l : list value) : list value := fold_left set_add l [].

(** A [Set] of strings, as [fixHints] is. *)
Definition hints_add (s : list string) (x : string) : list string :=
  if existsb (String.eqb x) s then s else s ++ [x].

Definition ellipsis : string := "…".

(** [summarizePackages]: [null] or the text of the summary. *)
Definition summarizePackages (issues : list value) : Exn value :=
  names <- mapM (fun issue => Js.get issue "packageName") issues ;;
  let packages := filter Js.truthy names in
  let unique := firstn 5 (new_Set packages) in
  if (length unique =? 0)%nat then Ok Null
  else
    list <- Js.join ", " unique ;;
    Ok (Str (if (length unique <? length packages)%nat
             then (list ++ ", " ++ ellipsis)%string
             else list)).

(** The plan object [{ steps, noAction, source }]. *)
Record Plan : Type := mkPlan {
  steps : list value;
  noAction : bool;
  source : string
}.

(** The body of [issues.forEach] that fills [fixHints]. *)
Definition add_fix_hints (fixHints : list string) (issue : value)
  : Exn (list string) :=
  upgradePath <- Js.get issue "upgradePath" ;;
  let fixHints :=
    match upgradePath with
    | Arr path =>
        if existsb Js.truthy path
        then hints_add fixHints "upgrade dependencies to secure versions"
        else fixHints
    | _ => fixHints
    end in
  isPatched <- Js.get issue "isPatched" ;;
  Ok (if Js.truthy isPatched
      then hints_add fixHints "apply available patches"
      else fixHints).

Fixpoint collect_fix_hints (fixHints : list string) (issues : list value)
  : Exn (list string) :=
  match issues with
  | [] => Ok fixHints
  | issue :: rest =>
      fixHints' <- add_fix_hints fixHints issue ;;
      collect_fix_hints fixHints' rest
  end.

(** One turn of [severityOrder.forEach]: the step of a bucket, if any. *)
Definition severity_step (severity : string) (issues : list value)
  : Exn (list value) :=
  match issues with
  | [] => Ok []
  | _ =>
      packages <- summarizePackages issues ;;
      let title := (Text.capitalize severity ++ " vulnerabilities")%string in
      fixHints <- collect_fix_hints [] issues ;;
      let hintText :=
        match fixHints with
        | [] => ""
        | _ => (" (" ++ Text.join " or " fixHints ++ ")")%string
        end in
      packageText <-
        (if Js.truthy packages
         then p <- Js.to_string packages ;; Ok (" (" ++ p ++ ")")%string
         else Ok "") ;;
      Ok [Str ("Resolve " ++ title ++ " first" ++ packageText ++ hintText ++ ".")%string]
  end.

(** [issuesBySeverity[severity]] *)
Definition bucket (severity : string) (issues : list value) : Exn (list value) :=
  filterM (fun issue =>
             s <- Js.get issue "severity" ;; Ok (Js.strict_eq_str s severity))
          issues.

(** The steps pushed for the buckets, in the order of [severityOrder]. *)
Definition severity_steps (issues : list value) : Exn (list value) :=
  buckets <- mapM (fun severity => bucket severity issues) severityOrder ;;
  per_bucket <- mapM (fun sb => severity_step (fst sb) (snd sb))
                     (combine severityOrder buckets) ;;
  Ok (concat per_bucket).

(** The step pushed for the license findings, if any. *)
Definition license_steps (scanResult : value) : Exn (list value) :=
  licenses <- Js.get scanResult "licenses" ;;
  match licenses with
  | Arr (l :: ls) =>
      licensePkgs <- summarizePackages (l :: ls) ;;
      forPkgs <-
        (if Js.truthy licensePkgs
         then p <- Js.to_string licensePkgs ;; Ok (" for " ++ p)%string
         else Ok "") ;;
      Ok [Str ("Review license findings" ++ forPkgs
               ++ " with legal/compliance teams.")%string]
  | _ => Ok []
  end.

Definition restore_access_step : value :=
  Str "Restore repository access so automated scans can run.".

Definition closing_steps : list value :=
  [Str "Add automated dependency updates (Dependabot, Renovate) and enforce Snyk scans in CI.";
   Str "Re-run `snyk test` after applying fixes to confirm a clean report."].

Definition no_vulnerabilities_step : value :=
  Str "No vulnerabilities found. Schedule recurring scans and keep dependencies updated.".

(** [ActionPlanAgent.generateFallback] *)
Definition generateFallback (scanResult : value) : Exn Plan :=
  if negb (Js.truthy scanResult) || negb (Js.typeof_object scanResult)
  then Ok (mkPlan [] true "fallback")
  else
    accessible <- Js.get scanResult "repositoryAccessible" ;;
    if negb (Js.truthy accessible)
    then Ok (mkPlan [restore_access_step] false "fallback")
    else
      issues <- Js.get scanResult "issues" ;;
      match issues with
      | Arr issues =>
          by_severity <- severity_steps issues ;;
          for_licenses <- license_steps scanResult ;;
          let steps := by_severity ++ for_licenses in
          if (0 <? length issues)%nat
          then Ok (mkPlan (steps ++ closing_steps) false "fallback")
          else Ok (mkPlan [] true "fallback")
      | _ => Ok (mkPlan [] true "fallback")
      end.

(** The planner of [src/actionPlanAgent.js]: the same rules, returning the
    bare list of steps. *)
Module Legacy.

Definition generate (scanResult : value) : Exn (list value) :=
  if negb (Js.truthy scanResult) || negb (Js.typeof_object scanResult)
  then Ok []
  else
    accessible <- Js.get scanResult "repositoryAccessible" ;;
    if negb (Js.truthy accessible)
    then Ok [restore_access_step]
    else
      issues <- Js.get scanResult "issues" ;;
      match issues with
      | Arr issues =>
          by_severity <- severity_steps issues ;;
          for_licenses <- license_steps scanResult ;;
          let plan := by_severity ++ for_licenses in
          if (0 <? length issues)%nat
          then Ok (plan ++ closing_steps)
          else Ok (plan ++ [no_vulnerabilities_step])
      | _ => Ok []
      end.

End Legacy.

(* ------------------------------------------------------------------ *)
(** *** The delegated path *)

(** How an awaited call into the OpenAI client settles.  The calls
    [client.agents.create] and [client.responses.create] are taken to return
    promises, as the source uses them ([.catch], [await]): they fail by
    rejection. *)
Inductive settled : Type :=
| Resolved (v : value)
| Rejected (e : error).

(** What the remote side does during one request. *)
Record Remote : Type := mkRemote {
  agents_create : settled;
  responses_create : settled
}.

(** The fields of an [ActionPlanAgent] the planner reads and writes:
    [client] says whether [this.client] is set (an API key and the SDK are
    both there); [agentPromise] is [None] for [null], and otherwise the value
    the stored promise is fulfilled with. *)
Record Agent : Type := mkAgent {
  client : bool;
  agentPromise : option value
}.

(** [ensureAgent]: the awaited result and the agent afterwards.  The
    [.catch] handler turns a rejected creation into [null] and clears
    [agentPromise]. *)
Definition ensureAgent (this : Agent) (remote : Remote) : value * Agent :=
  if negb (client this) then (Null, this)
  else
    match agentPromise this with
    | Some agent => (agent, this)
    | None =>
        match agents_create remote with
        | Resolved agent => (agent, mkAgent (client this) (Some agent))
        | Rejected _ => (Null, mkAgent (client this) None)
        end
    end.

Definition newline : string := String (ascii_of_nat 10) EmptyString.

Section FlatMapM.
Context {A B : Type} (f : A -> Exn (list B)).

(** [l.flatMap(f)] for a callback that returns arrays and can throw. *)
Fixpoint flatMapM (l : list A) : Exn (list B) :=
  match l with
  | [] => Ok []
  | a :: l' => bs <- f a ;; rest <- flatMapM l' ;; Ok (bs ++ rest)
  end.
End FlatMapM.

Definition is_text_item (contentItem : value) : bool :=
  Js.strict_eq_str (Js.get_opt contentItem "type") "output_text"
  || Js.strict_eq_str (Js.get_opt contentItem "type") "text".

(** The callback of [response.output.flatMap]. *)
Definition content_chunks (item : value) : Exn (list value) :=
  content <- Js.get item "content" ;;
  match content with
  | Arr contentItems =>
      mapM (fun contentItem =>
              text <- Js.get contentItem "text" ;;
              val <- Js.get contentItem "value" ;;
              Ok (Js.or (Js.or text val) (Str "")))
           (filter is_text_item contentItems)
  | _ => Ok []
  end.

(** [extractText] of [generateWithOpenAI] *)
Definition extractText (response : value) : Exn string :=
  if negb (Js.truthy response) then Ok ""
  else
    output_text <- Js.get response "output_text" ;;
    let direct :=
      match output_text with
      | Str text => if Text.nonempty (Text.trim text) then Some text else None
      | _ => None
      end in
    match direct with
    | Some text => Ok text
    | None =>
        output <- Js.get response "output" ;;
        chunks <- match output with
                  | Arr items => flatMapM content_chunks items
                  | _ => Ok []
                  end ;;
        joined <- Js.join newline chunks ;;
        Ok (Text.trim joined)
    end.

Section Delegated.

(** [JSON.parse]: the value a text decodes to, or the [SyntaxError]. *)
Variable JSON_parse : string -> Exn value.

(** The [try] block of [generateWithOpenAI].  The request carries the
    report; what comes back is up to the remote side. *)
Definition request_plan (remote : Remote) : Exn Plan :=
  response <- match responses_create remote with
              | Resolved response => Ok response
              | Rejected e => Throw e
              end ;;
  textOutput <- extractText response ;;
  if negb (Text.nonempty textOutput)
  then Throw (Error "No text output from agent")
  else
    parsed <- JSON_parse textOutput ;;
    parsed_steps <- Js.get parsed "steps" ;;
    let steps :=
      match parsed_steps with
      | Arr l => filter Js.truthy l
      | _ => []
      end in
    no_action <- Js.get parsed "no_action" ;;
    let noAction := Js.truthy no_action || (length steps =? 0)%nat in
    Ok (mkPlan steps noAction "openai").

(** [generateWithOpenAI]: [None] is the [null] it returns when the
    delegated path is unavailable or has failed. *)
Definition generateWithOpenAI (this : Agent) (remote : Remote)
  : option Plan * Agent :=
  let (agent, this') := ensureAgent this remote in
  if negb (Js.truthy agent) then (None, this')
  else (try_catch (plan <- request_plan remote ;; Ok (Some plan))
                  (fun _ => None),
        this').

(** [ActionPlanAgent.generate] *)
Definition generate (this : Agent) (remote : Remote) (scanResult : value)
  : Exn Plan * Agent :=
  let (aiPlan, this') := generateWithOpenAI this remote in
  match aiPlan with
  | Some plan => (Ok plan, this')
  | None => (generateFallback scanResult, this')
  end.

End Delegated.

(* ================================================================== *)
(** ** The report normaliser *)

(** [l.slice(-2)]: from index [max (length - 2) 0] to the end. *)
Definition slice_last_two {A : Type} (l : list A) : list A :=
  skipn (length l - 2) l.

(** The [try] block of [deriveRepoName], on a string. *)
Definition derive_from_text (repoUrl : string) : string :=
  let cleaned := Text.strip_suffix ".git" (Text.trim repoUrl) in
  let parts := filter Text.nonempty (Text.split "/"%char cleaned) in
  let lastTwo := slice_last_two parts in
  Text.join "/" lastTwo.

(** [deriveRepoName].  The default parameter turns [undefined] into the
    empty text; any other value that is not a string has no [trim] method,
    and the [catch] answers ['Repository']. *)
Definition deriveRepoName (repoUrl : value) : string :=
  match repoUrl with
  | Undefined => derive_from_text ""
  | Str s => derive_from_text s
  | _ => "Repository"
  end.

(** The [counters] object, as far as its four own counters go.  (A severity
    that names a property inherited from [Object.prototype] makes the loop
    write some other property; the four counters are not touched by it.) *)
Record Counters : Type := mkCounters {
  critical : nat;
  high : nat;
  medium : nat;
  low : nat
}.

(** [counters[key] += 1] when [counters[key]] is one of the counters. *)
Definition increment (counters : Counters) (key : string) : Counters :=
  if String.eqb key "critical" then
    mkCounters (S (critical counters)) (high counters) (medium counters) (low counters)
  else if String.eqb key "high" then
    mkCounters (critical counters) (S (high counters)) (medium counters) (low counters)
  else if String.eqb key "medium" then
    mkCounters (critical counters) (high counters) (S (medium counters)) (low counters)
  else if String.eqb key "low" then
    mkCounters (critical counters) (high counters) (medium counters) (S (low counters))
  else counters.

(** [counters[severity]] for one of the four names. *)
Definition counter (counters : Counters) (severity : string) : nat :=
  if String.eqb severity "critical" then critical counters
  else if String.eqb severity "high" then high counters
  else if String.eqb severity "medium" then medium counters
  else if String.eqb severity "low" then low counters
  else 0.

(** The body of the counting [forEach]; [item.severity] is the computed
    property name, so it goes through [ToString]. *)
Definition count_item (counters : Counters) (item : value) : Exn Counters :=
  severity <- Js.get item "severity" ;;
  if Js.truthy severity
  then key <- Js.to_string severity ;; Ok (increment counters key)
  else Ok counters.

Fixpoint count_items (counters : Counters) (issues : list value) : Exn Counters :=
  match issues with
  | [] => Ok counters
  | item :: rest =>
      counters' <- count_item counters item ;;
      count_items counters' rest
  end.

Module Issue.
(** An entry of [issues] in the report. *)
Record t : Type := mk {
  id : value;
  title : value;
  severity : value;
  packageName : value;
  version : value;
  from : value;
  description : value;
  url : value;
  publicationTime : value;
  upgradePath : value;
  isPatched : value
}.
End Issue.

Module License.
(** An entry of [licenses] in the report. *)
Record t : Type := mk {
  id : value;
  title : value;
  severity : value;
  packageName : value;
  description : value;
  url : value
}.
End License.

(** The callback of [issues.map]. *)
Definition format_issue (item : value) : Exn Issue.t :=
  id <- Js.get item "id" ;;
  title <- Js.get item "title" ;;
  severity <- Js.get item "severity" ;;
  packageName <- Js.get item "packageName" ;;
  version <- Js.get item "version" ;;
  from <- Js.get item "from" ;;
  description <- Js.get item "description" ;;
  url <- Js.get item "url" ;;
  identifiers <- Js.get item "identifiers" ;;
  publicationTime <- Js.get item "publicationTime" ;;
  upgradePath <- Js.get item "upgradePath" ;;
  isPatched <- Js.get item "isPatched" ;;
  Ok (Issue.mk id title severity packageName version from description
        (Js.or (Js.or url (Js.at_opt (Js.get_opt identifiers "url") 0)) Null)
        (Js.or publicationTime Null)
        (Js.or upgradePath (Arr []))
        (Js.or isPatched (Bool false))).

(** The callback of [licenseIssues.map]. *)
Definition format_license (item : value) : Exn License.t :=
  id <- Js.get item "id" ;;
  title <- Js.get item "title" ;;
  severity <- Js.get item "severity" ;;
  packageName <- Js.get item "packageName" ;;
  description <- Js.get item "description" ;;
  url <- Js.get item "url" ;;
  Ok (License.mk id title severity packageName description (Js.or url Null)).

(** [pushTarget] *)
Definition pushTarget (targetFiles : list string) (v : value) : list string :=
  match v with
  | Str s =>
      let trimmed := Text.trim s in
      if negb (Text.nonempty trimmed) then targetFiles
      else if existsb (String.eqb trimmed) targetFiles then targetFiles
      else targetFiles ++ [trimmed]
  | _ => targetFiles
  end.

(** [a ?? b] *)
Definition coalesce (a b : value) : value := if Js.nullish a then b else a.

(** The [context] argument of [formatSnykPayload]. *)
Record Context : Type := mkContext {
  ctx_repoUrl : value;
  ctx_snykCommand : value
}.

(** The raw issue list: [payload.issues.vulnerabilities] when it is an
    array, else the legacy [payload.vulnerabilities], else nothing. *)
Definition raw_issues (payload : value) : list value :=
  let legacyVulns :=
    match Js.get_opt payload "vulnerabilities" with
    | Arr l => l
    | _ => []
    end in
  match Js.get_opt (Js.get_opt payload "issues") "vulnerabilities" with
  | Arr l => l
  | _ => legacyVulns
  end.

Definition raw_licenses (payload : value) : list value :=
  match Js.get_opt (Js.get_opt payload "issues") "licenses" with
  | Arr l => l
  | _ => []
  end.

(** The fallback chain of [projectName]. *)
Definition resolve_projectName (payload repoUrl : value) : value :=
  Js.or (Js.or (Js.or (Js.or (Js.get_opt payload "projectName")
                             (Js.at_opt (Js.get_opt payload "projectNames") 0))
                      (Js.get_opt payload "displayTargetFile"))
               (Str (deriveRepoName repoUrl)))
        (Str "Unknown project").

Definition collect_targets (payload : value) : list string :=
  let targetFiles := pushTarget [] (Js.get_opt payload "displayTargetFile") in
  let targetFiles := pushTarget targetFiles (Js.get_opt payload "targetFile") in
  match Js.get_opt payload "targetFiles" with
  | Arr l => fold_left pushTarget l targetFiles
  | _ => targetFiles
  end.

(** The report object [formatSnykPayload] returns. *)
Record Report : Type := mkReport {
  ok : bool;
  projectName : value;
  summary : Counters;
  issues : list Issue.t;
  licenses : list License.t;
  projectType : value;
  repositoryUrl : value;
  repositoryAccessible : bool;
  scanTargetFiles : list string;
  primaryTargetFile : value;
  snykCommand : value;
  dependencyCount : value;
  raw : value
}.

(** [formatSnykPayload] *)
Definition formatSnykPayload (payload : value) (context : Context) : Exn Report :=
  let repoUrl := ctx_repoUrl context in
  let issues := raw_issues payload in
  let licenseIssues := raw_licenses payload in
  let projectName := resolve_projectName payload repoUrl in
  let targetFiles := collect_targets payload in
  let projectType :=
    Js.or (Js.or (Js.get_opt payload "projectType")
                 (Js.get_opt payload "packageManager")) Null in
  let dependencyCount :=
    coalesce (coalesce (Js.get_opt payload "dependencyCount")
                       (Js.get_opt (Js.get_opt payload "summary") "dependencyCount"))
             Null in
  let repositoryUrl := Js.or (Js.or repoUrl (Js.get_opt payload "projectUrl")) Null in
  counters <- count_items (mkCounters 0 0 0 0) issues ;;
  formatted_issues <- mapM format_issue issues ;;
  formatted_licenses <- mapM format_license licenseIssues ;;
  Ok (mkReport (Js.truthy (Js.get_opt payload "ok"))
               projectName counters formatted_issues formatted_licenses
               projectType repositoryUrl true targetFiles
               (match targetFiles with
                | first :: _ => Js.or (Str first) Null
                | [] => Null
                end)
               (Js.or (ctx_snykCommand context) Null)
               dependencyCount payload).

(* ================================================================== *)
(** ** The request pipeline ([POST /api/scan]) *)

(** [buildHelpfulErrorDetail] *)
Definition credential_hint : string :=
  " Ensure the backend process has a valid SNYK_TOKEN environment variable.".

Definition buildHelpfulErrorDetail (details : value) : Exn value :=
  let details := match details with Undefined => Str "" | _ => details end in
  text <- Js.to_string (Js.or details (Str "")) ;;
  let normalized := Text.toLowerCase text in
  if Text.includes "snyk auth" normalized || Text.includes "authentication" normalized
  then shown <- Js.to_string details ;;
       Ok (Str (Text.trim (shown ++ credential_hint)))
  else Ok details.

(** The error a failed [execAsync] rejects with. *)
Record ExecError : Type := mkExecError {
  err_stdout : value;
  err_stderr : value;
  err_output : value;
  err_message : value
}.

Inductive exec_outcome : Type :=
| ExecOk (stdout : value)
| ExecFailed (err : ExecError).

(** What the world outside the process does during one request. *)
Record World : Type := mkWorld {
  mkdtemp : Exn string;          (* the directory created, or the failure *)
  clone : option value;          (* [None]: cloned; [Some m]: failed, message [m] *)
  exec : exec_outcome;
  rm : option error;             (* [Some e]: [fs.rm] fails *)
  remote : Remote
}.


(** The [details] field of an error body: absent, a value, or the
    [message] of a caught exception. *)
Inductive details_field : Type :=
| NoDetails
| Details (v : value)
| MessageOf (e : error).

(** The JSON bodies the handler sends; [rawOutput] is [Undefined] when the
    body has no such field. *)
Inductive response_body : Type :=
| ErrorBody (error : string) (details : details_field) (rawOutput : value)
| ScanBody (formatted : Report) (actionPlan : Plan).

(** What a request does that can be seen from outside, in the order it
    does it.  [repoDir] is [path.join(baseTempDir, 'repo')]. *)
Inductive event : Type :=
| Mkdtemp (dir : string)
| GitClone (repoUrl : string) (repoDir : string)
| RunScanner (cwd : string)
| CleanUpDir (dirPath : string)
| FsRm (dirPath : string)
| Warn (dirPath : string)
| Respond (status : nat) (body : response_body).

(** [cleanUpDir] *)
Definition cleanUpDir (w : World) (dirPath : string) : list event :=
  CleanUpDir dirPath ::
  (if negb (Text.nonempty dirPath) then []
   else FsRm dirPath ::
        match rm w with
        | Some _ => [Warn dirPath]
        | None => []
        end).

(** [err.stdout || (Array.isArray(err.output) ? err.output[1] : '')] *)
Definition captured_stdout (err : ExecError) : value :=
  Js.or (err_stdout err)
        (if Js.isArray (err_output err) then Js.at_opt (err_output err) 1 else Str "").

Definition captured_stderr (err : ExecError) : value :=
  Js.or (err_stderr err)
        (if Js.isArray (err_output err) then Js.at_opt (err_output err) 2 else Str "").

(** The outcome of the scanner stage: the output to parse, or the detail
    of the failure to report. *)
Inductive scan_result : Type :=
| ScanOutput (scanOutput : value)
| ScanFailed (details : Exn value).

Definition run_scan (o : exec_outcome) : scan_result :=
  match o with
  | ExecOk stdout => ScanOutput stdout
  | ExecFailed err =>
      let stdout := captured_stdout err in
      let stderr := captured_stderr err in
      if Js.truthy stdout then ScanOutput stdout
      else ScanFailed (buildHelpfulErrorDetail (Js.or stderr (err_message err)))
  end.

(** The report as the object handed to the planner. *)
Definition counters_value (c : Counters) : value :=
  Obj [("critical", Num (Z.of_nat (critical c)));
       ("high", Num (Z.of_nat (high c)));
       ("medium", Num (Z.of_nat (medium c)));
       ("low", Num (Z.of_nat (low c)))].

Definition issue_value (i : Issue.t) : value :=
  Obj [("id", Issue.id i); ("title", Issue.title i);
       ("severity", Issue.severity i); ("packageName", Issue.packageName i);
       ("version", Issue.version i); ("from", Issue.from i);
       ("description", Issue.description i); ("url", Issue.url i);
       ("publicationTime", Issue.publicationTime i);
       ("upgradePath", Issue.upgradePath i); ("isPatched", Issue.isPatched i)].

Definition license_value (l : License.t) : value :=
  Obj [("id", License.id l); ("title", License.title l);
       ("severity", License.severity l); ("packageName", License.packageName l);
       ("description", License.description l); ("url", License.url l)].

Definition report_value (r : Report) : value :=
  Obj [("ok", Bool (ok r)); ("projectName", projectName r);
       ("summary", counters_value (summary r));
       ("issues", Arr (map issue_value (issues r)));
       ("licenses", Arr (map license_value (licenses r)));
       ("projectType", projectType r); ("repositoryUrl", repositoryUrl r);
       ("repositoryAccessible", Bool (repositoryAccessible r));
       ("scanTargetFiles", Arr (map Str (scanTargetFiles r)));
       ("primaryTargetFile", primaryTargetFile r);
       ("snykCommand", snykCommand r);
       ("dependencyCount", dependencyCount r); ("raw", raw r)].

(** One run of the handler: what it did, how it ended ([Throw]: the
    handler itself failed, no response was sent by it), and the planner
    agent afterwards. *)
Record Run : Type := mkRun {
  trace : list event;
  completion : Exn unit;
  agent_after : Agent
}.

Section Pipeline.

Variable JSON_parse : string -> Exn value.
Variable SNYK_COMMAND : string.

(** The last [try] block of the handler: the response and the agent. *)
Definition parse_and_plan (this : Agent) (w : World) (repoUrl scanOutput : value)
  : Exn (nat * response_body) * Agent :=
  match (text <- Js.to_string scanOutput ;; JSON_parse text) with
  | Throw e => (Throw e, this)
  | Ok parsed =>
      if Js.truthy (Js.or (Js.get_opt parsed "error") (Js.get_opt parsed "userMessage"))
      then
        (userMessage <- Js.get parsed "userMessage" ;;
         error <- Js.get parsed "error" ;;
         details <- buildHelpfulErrorDetail (Js.or userMessage error) ;;
         Ok (502, ErrorBody "Snyk scan reported an error." (Details details) Undefined),
         this)
      else
        match formatSnykPayload parsed (mkContext repoUrl (Str SNYK_COMMAND)) with
        | Throw e => (Throw e, this)
        | Ok formatted =>
            let (actionPlan, this') :=
              generate JSON_parse this (remote w) (report_value formatted) in
            (plan <- actionPlan ;; Ok (200, ScanBody formatted plan), this')
        end
  end.

(** The handler of [app.post('/api/scan')]. *)
Definition scan_handler (this : Agent) (w : World) (repoUrl : value) : Run :=
  match repoUrl with
  | Str url =>
      if negb (Text.nonempty url)
      then mkRun [Respond 400 (ErrorBody "A valid GitHub repository URL is required."
                                 NoDetails Undefined)]
                 (Ok tt) this
      else
        match mkdtemp w with
        | Throw e => mkRun [] (Throw e) this
        | Ok baseTempDir =>
            let repoDir := (baseTempDir ++ "/repo")%string in
            let started := [Mkdtemp baseTempDir; GitClone url repoDir] in
            match clone w with
            | Some message =>
                mkRun (started ++ cleanUpDir w baseTempDir
                         ++ [Respond 400 (ErrorBody "Failed to clone repository."
                                            (Details message) Undefined)])
                      (Ok tt) this
            | None =>
                let scanned := started ++ [RunScanner repoDir] in
                match run_scan (exec w) with
                | ScanFailed details =>
                    match details with
                    | Ok d =>
                        mkRun (scanned ++ cleanUpDir w baseTempDir
                                 ++ [Respond 500 (ErrorBody "Snyk scan failed." (Details d)
                                                    Undefined)])
                              (Ok tt) this
                    | Throw e =>
                        mkRun (scanned ++ cleanUpDir w baseTempDir) (Throw e) this
                    end
                | ScanOutput scanOutput =>
                    let (result, this') := parse_and_plan this w repoUrl scanOutput in
                    let response :=
                      try_catch result
                        (fun err => (500, ErrorBody "Unable to parse Snyk output."
                                            (MessageOf err) scanOutput)) in
                    mkRun (scanned ++ [Respond (fst response) (snd response)]
                             ++ cleanUpDir w baseTempDir)
                          (Ok tt) this'
                end
            end
        end
  | _ =>
      mkRun [Respond 400 (ErrorBody "A valid GitHub repository URL is required."
                            NoDetails Undefined)]
            (Ok tt) this
  end.

End Pipeline.

(* ================================================================== *)
(** * Specification-side definitions and sample inputs *)

(** The invariant the specification gives for a plan. *)
Definition plan_invariant (p : Plan) : Prop :=
  noAction p = true <-> steps p = [].

(** A [JSON.parse] that knows one text: it decodes [text] to [v], as
    [JSON.parse] does for the pairs used below, and rejects the rest. *)
Definition parse_only (text : string) (v : value) : string -> Exn value :=
  fun s => if String.eqb s text then Ok v else Throw SyntaxError.

Definition dquote : string := String (ascii_of_nat 34) EmptyString.

(** A planner whose client is configured and whose agent is not yet
    created, and one without credentials. *)
Definition fresh_agent : Agent := mkAgent true None.
Definition no_client_agent : Agent := mkAgent false None.

Definition remote_agent : value := Obj [("id", Str "agent_1")].

(** A remote side that answers with the text [text]. *)
Definition answering (text : string) : Remote :=
  mkRemote (Resolved remote_agent) (Resolved (Obj [("output_text", Str text)])).

(** The text [{"steps":["Upgrade lodash."],"no_action":true}] and the
    value it decodes to. *)
Definition declared_text : string :=
  "{" ++ dquote ++ "steps" ++ dquote ++ ":[" ++ dquote ++ "Upgrade lodash."
      ++ dquote ++ "]," ++ dquote ++ "no_action" ++ dquote ++ ":true}".

Definition declared_value : value :=
  Obj [("steps", Arr [Str "Upgrade lodash."]); ("no_action", Bool true)].

(** A report with one high-severity issue. *)
Definition one_issue_report : value :=
  Obj [("repositoryAccessible", Bool true);
       ("issues", Arr [Obj [("severity", Str "high"); ("packageName", Str "lodash")]]);
       ("licenses", Arr [])].

(** A report with a high-severity issue that can be upgraded and a
    critical one that is patched. *)
Definition two_bucket_report : value :=
  Obj [("repositoryAccessible", Bool true);
       ("issues",
        Arr [Obj [("severity", Str "high"); ("packageName", Str "lodash");
                  ("upgradePath", Arr [Bool false; Str "lodash@4.17.21"]);
                  ("isPatched", Bool false)];
             Obj [("severity", Str "critical"); ("packageName", Str "minimist");
                  ("upgradePath", Arr []); ("isPatched", Bool true)]]);
       ("licenses", Arr [])].

(** A clean report, with and without a license finding. *)
Definition clean_report : value :=
  Obj [("repositoryAccessible", Bool true); ("issues", Arr []); ("licenses", Arr [])].

Definition license_only_report : value :=
  Obj [("repositoryAccessible", Bool true); ("issues", Arr []);
       ("licenses", Arr [Obj [("packageName", Str "gpl-lib")]])].


(** An issue that names the package [s]. *)
Definition named (s : string) : value := Obj [("packageName", Str s)].

(** The number of issues of a report whose [severity] is the text [name]. *)
Definition count_severity (name : string) (l : list Issue.t) : nat :=
  length (filter (fun i => Js.strict_eq_str (Issue.severity i) name) l).

(** An issue whose [severity] is one of the four recognised texts. *)
Definition recognized (i : Issue.t) : bool :=
  existsb (Js.strict_eq_str (Issue.severity i)) severityOrder.

(** The payload [{"vulnerabilities":[{"severity":["high"]}]}]. *)
Definition array_severity_payload : value :=
  Obj [("vulnerabilities", Arr [Obj [("severity", Arr [Str "high"])]])].

Definition sample_context : Context :=
  mkContext (Str "https://github.com/org/project.git") (Str "npx snyk test --json").

(** The payload [{"vulnerabilities":[{"severity":"high"},{"severity":"none"},{}]}]. *)
Definition mixed_payload : value :=
  Obj [("vulnerabilities",
        Arr [Obj [("severity", Str "high")]; Obj [("severity", Str "none")]; Obj []])].

(** A raw issue with an identifier and nothing else. *)
Definition bare_issue : value := Obj [("id", Str "SNYK-JS-LODASH-1018905")].

(** The first entry of the nested [identifiers.url] of a raw issue. *)
Definition first_identifier_url (item : value) : value :=
  Js.at_opt (Js.get_opt (Js.get_opt item "identifiers") "url") 0.



(** The repository location with the white space around it and one
    trailing [.git] removed. *)
Definition cleaned_location (s : string) : string :=
  Text.strip_suffix ".git" (Text.trim s).








Definition sample_world (o : exec_outcome) : World :=
  mkWorld (Ok "/tmp/snyk-scan-Ab12Cd") None o None
          (mkRemote (Rejected (Error "unavailable")) (Rejected (Error "unavailable"))).

Definition sample_url : value := Str "https://github.com/org/project".

Definition sample_dir : string := "/tmp/snyk-scan-Ab12Cd".
Definition sample_command : string := "npx snyk test --json".

(** The text [{"ok":true,"vulnerabilities":[]}] and the value it decodes to. *)
Definition clean_text : string :=
  "{" ++ dquote ++ "ok" ++ dquote ++ ":true," ++ dquote ++ "vulnerabilities"
      ++ dquote ++ ":[]}".

Definition clean_payload : value :=
  Obj [("ok", Bool true); ("vulnerabilities", Arr [])].

(** Texts made of white space only, and texts with no white space at
    either end. *)
Fixpoint all_space (s : string) : bool :=
  match s with
  | EmptyString => true
  | String c s' => Text.is_space c && all_space s'
  end.

Definition no_space_at_start (s : string) : Prop :=
  match s with
  | EmptyString => True
  | String c _ => Text.is_space c = false
  end.

Fixpoint last_char (s : string) : option ascii :=
  match s with
  | EmptyString => None
  | String c EmptyString => Some c
  | String _ s' => last_char s'
  end.

Definition no_space_at_end (s : string) : Prop :=
  match last_char s with
  | None => True
  | Some c => Text.is_space c = false
  end.

(** The character [c] does not occur in [s]. *)
Fixpoint free_of (c : ascii) (s : string) : bool :=
  match s with
  | EmptyString => true
  | String d s' => negb (Ascii.eqb d c) && free_of c s'
  end.

(* ================================================================== *)
(** * Further specification-side definitions *)

(** The distinct elements of a list of texts, each at its first place. *)
Fixpoint first_seen (l : list string) : list string :=
  match l with
  | [] => []
  | x :: l' => x :: filter (fun y => negb (String.eqb x y)) (first_seen l')
  end.

(** The names a summary shows for issues that name the packages [names]. *)
Definition shown_names (names : list string) : list string :=
  firstn 5 (first_seen (filter Text.nonempty names)).

(** An issue of the severity [severity]. *)
Definition of_severity (severity : string) (issue : value) : bool :=
  Js.strict_eq_str (Js.get_opt issue "severity") severity.

(** What the plan holds for one severity: nothing when no issue has it,
    else one step that opens with the fixed words for that severity. *)
Definition step_for (severity : string) (issues : list value) (steps : list value)
  : Prop :=
  if existsb (of_severity severity) issues
  then exists rest,
         steps = [Str ("Resolve " ++ Text.capitalize severity
                       ++ " vulnerabilities first" ++ rest)]
  else steps = [].

(** The step for license findings, when there is one. *)
Definition license_step_shape (steps : list value) : Prop :=
  steps = []
  \/ exists pkgs,
       steps = [Str ("Review license findings" ++ pkgs
                     ++ " with legal/compliance teams.")].

Definition is_str (v : value) : bool :=
  match v with
  | Str _ => true
  | _ => false
  end.

(** The steps a parsed answer declares: the truthy entries of [steps] when
    that is an array, none otherwise. *)
Definition declared_steps (parsed : value) : list value :=
  match Js.get_opt parsed "steps" with
  | Arr l => filter Js.truthy l
  | _ => []
  end.

(** The values a payload offers as target files, in the order the
    normaliser reads them, and their trimmed, non-blank texts. *)
Definition target_candidates (payload : value) : list value :=
  [Js.get_opt payload "displayTargetFile"; Js.get_opt payload "targetFile"]
  ++ match Js.get_opt payload "targetFiles" with
     | Arr l => l
     | _ => []
     end.

Fixpoint target_texts (candidates : list value) : list string :=
  match candidates with
  | [] => []
  | Str s :: rest =>
      if Text.nonempty (Text.trim s)
      then Text.trim s :: target_texts rest
      else target_texts rest
  | _ :: rest => target_texts rest
  end.

(** A value that is neither an array nor an object. *)
Definition scalar (v : value) : bool :=
  match v with
  | Arr _ | Obj _ => false
  | _ => true
  end.

(** An issue that can be upgraded, and an issue that is patched, as the
    planner tests them. *)
Definition can_upgrade (issue : value) : bool :=
  match Js.get_opt issue "upgradePath" with
  | Arr path => existsb Js.truthy path
  | _ => false
  end.

Definition patched (issue : value) : bool :=
  Js.truthy (Js.get_opt issue "isPatched").

Definition upgrade_hint : string := "upgrade dependencies to secure versions".
Definition patch_hint : string := "apply available patches".

(** A value that is truthy or else the default [d]. *)
Definition truthy_or (d v : value) : Prop := Js.truthy v = true \/ v = d.

(** The opening words of the step for a severity. *)
Definition resolve_words (severity : string) : string :=
  "Resolve " ++ Text.capitalize severity ++ " vulnerabilities first".

(** The plan holds a step for the severity. *)
Definition has_step_for (severity : string) (p : Plan) : Prop :=
  exists rest, In (Str (resolve_words severity ++ rest)) (steps p).

(** The number of times the character [c] occurs in [s]. *)
Fixpoint occurrences (c : ascii) (s : string) : nat :=
  match s with
  | EmptyString => 0
  | String d s' => (if Ascii.eqb d c then 1 else 0) + occurrences c s'
  end.

Definition first_char (s : string) : option ascii :=
  match s with
  | EmptyString => None
  | String c _ => Some c
  end.

(** Kinds of events, and the statuses of the responses of a trace. *)
Definition is_respond (e : event) : bool :=
  match e with Respond _ _ => true | _ => false end.

Definition is_cleanup (e : event) : bool :=
  match e with CleanUpDir _ => true | _ => false end.

Definition is_mkdtemp (e : event) : bool :=
  match e with Mkdtemp _ => true | _ => false end.

Definition is_rm (e : event) : bool :=
  match e with FsRm _ => true | _ => false end.

Fixpoint statuses (t : list event) : list nat :=
  match t with
  | [] => []
  | Respond status _ :: t' => status :: statuses t'
  | _ :: t' => statuses t'
  end.

(** [a] comes before [b] in [l]. *)
Definition precedes {A : Type} (a b : A) (l : list A) : Prop :=
  exists l1 l2 l3, l = l1 ++ a :: l2 ++ b :: l3.

(** The error responses sent after the workspace is removed. *)
Definition sent_after_cleanup (body : response_body) : bool :=
  match body with
  | ErrorBody error _ _ =>
      String.eqb error "Failed to clone repository."
      || String.eqb error "Snyk scan failed."
  | ScanBody _ _ => false
  end.

(** A raw issue counted under [name]: its severity is truthy and prints as
    [name]. *)
Definition counted_as (name : string) (item : value) : bool :=
  Js.truthy (Js.get_opt item "severity")
  && match Js.to_string (Js.get_opt item "severity") with
     | Ok key => String.eqb key name
     | Throw _ => false
     end.

Definition total (c : Counters) : nat := critical c + high c + medium c + low c.

(** A world in which the scan fails without output and with a standard
    error that cannot be printed. *)
Definition unprintable_failure : ExecError :=
  mkExecError (Str "") (Obj [("toString", Num 1)]) Undefined (Str "Command failed").

(** Sample runs: output that does not parse, and a scan that fails with a
    detail that cannot be printed. *)
Definition unparseable_run : Run :=
  scan_handler (parse_only "{}" (Obj [])) sample_command no_client_agent
    (sample_world (ExecOk (Str "not json"))) sample_url.

Definition unprintable_run : Run :=
  scan_handler (parse_only "{}" (Obj [])) sample_command no_client_agent
    (sample_world (ExecFailed unprintable_failure)) sample_url.

Definition clean_run : Run :=
  scan_handler (parse_only clean_text clean_payload) sample_command no_client_agent
    (sample_world (ExecOk (Str clean_text))) sample_url.

(* ================================================================== *)
(** * Properties *)

(** ** The exception monad *)

Lemma bind_Ok {A B : Type} (m : Exn A) (k : A -> Exn B) (b : B) :
  bind m k = Ok b -> exists a, m = Ok a /\ k a = Ok b.
Proof.
  destruct m as [a | e]; simpl; intros H.
  - exists a. split; [reflexivity | exact H].
  - discriminate H.
Qed.

(** Splits a hypothesis [x <- m ;; k = Ok b] into its two halves. *)
Ltac inv_bind H :=
  let a := fresh "a" in
  let Hm := fresh "Hm" in
  apply bind_Ok in H; destruct H as (a & Hm & H).

Lemma mapM_length {A B : Type} (f : A -> Exn B) (l : list A) (l' : list B) :
  mapM f l = Ok l' -> length l' = length l.
Proof.
  revert l'. induction l as [| a l IH]; simpl; intros l' H.
  - injection H as <-. reflexivity.
  - inv_bind H. inv_bind H. injection H as <-. simpl. f_equal. apply IH, Hm0.
Qed.

(* ================================================================== *)
(** ** Text operations *)

(** These lemmas say what the operations of [Text] compute, in terms that
    do not mention how they compute it. *)

Lemma trim_start_spec (s : string) :
  exists l, s = (l ++ Text.trim_start s)%string
            /\ all_space l = true
            /\ no_space_at_start (Text.trim_start s).
Proof.
  induction s as [| c s (l & Hs & Hl & Hn)]; simpl.
  - exists "". repeat split.
  - destruct (Text.is_space c) eqn:Hc.
    + exists (String c l). simpl. rewrite Hc, Hl, <- Hs. repeat split. exact Hn.
    + exists "". simpl. repeat split. exact Hc.
Qed.

Lemma trim_end_spec (s : string) :
  exists r, s = (Text.trim_end s ++ r)%string
            /\ all_space r = true
            /\ no_space_at_end (Text.trim_end s).
Proof.
  induction s as [| c s (r & Hs & Hr & Hn)]; simpl.
  - exists "". repeat split.
  - destruct (Text.trim_end s) as [| d t] eqn:Ht.
    + simpl in Hs. subst r.
      destruct (Text.is_space c) eqn:Hc.
      * exists (String c s). simpl. rewrite Hc, Hr. repeat split.
      * exists s. repeat split; [exact Hr | exact Hc].
    + exists r. simpl. rewrite Hs at 1. repeat split; [exact Hr | exact Hn].
Qed.

Lemma trim_end_start (s : string) :
  no_space_at_start s -> no_space_at_start (Text.trim_end s).
Proof.
  destruct s as [| c s]; simpl; [trivial |].
  intros Hc. destruct (Text.trim_end s); [rewrite Hc |]; exact Hc.
Qed.

(** [trim] removes white space, and only white space, from both ends. *)
Lemma trim_spec (s : string) :
  exists l r, s = (l ++ Text.trim s ++ r)%string
              /\ all_space l = true /\ all_space r = true
              /\ no_space_at_start (Text.trim s)
              /\ no_space_at_end (Text.trim s).
Proof.
  unfold Text.trim.
  destruct (trim_start_spec s) as (l & Hs & Hl & Hn).
  destruct (trim_end_spec (Text.trim_start s)) as (r & Ht & Hr & He).
  exists l, r. split; [rewrite <- Ht; exact Hs |].
  repeat split; try assumption.
  apply trim_end_start, Hn.
Qed.

Lemma append_length (a b : string) :
  String.length (a ++ b) = String.length a + String.length b.
Proof. induction a as [| c a IH]; simpl; [reflexivity | rewrite IH; reflexivity]. Qed.

Lemma strip_suffix_unfold (suffix s : string) :
  Text.strip_suffix suffix s
  = if String.eqb s suffix then ""
    else match s with
         | EmptyString => ""
         | String c s' => String c (Text.strip_suffix suffix s')
         end.
Proof. destruct s; reflexivity. Qed.

(** [strip_suffix] removes the suffix when the text ends with it ... *)
Lemma strip_suffix_app (suffix t : string) :
  Text.strip_suffix suffix (t ++ suffix) = t.
Proof.
  induction t as [| c t IH]; rewrite strip_suffix_unfold.
  - change ("" ++ suffix)%string with suffix. rewrite String.eqb_refl. reflexivity.
  - replace (String.eqb (String c t ++ suffix) suffix) with false.
    + cbn [append]. rewrite IH. reflexivity.
    + symmetry. apply String.eqb_neq. intros E.
      apply (f_equal String.length) in E.
      rewrite append_length in E. simpl in E. lia.
Qed.

(** ... and leaves any other text as it is. *)
Lemma strip_suffix_other (suffix s : string) :
  (forall t, s <> (t ++ suffix)%string) ->
  Text.strip_suffix suffix s = s.
Proof.
  induction s as [| c s IH]; intros H; rewrite strip_suffix_unfold.
  - destruct (String.eqb "" suffix); reflexivity.
  - destruct (String.eqb_spec (String c s) suffix) as [E | _].
    + exfalso. apply (H ""). exact E.
    + rewrite IH; [reflexivity |].
      intros t E. apply (H (String c t)). simpl. rewrite E. reflexivity.
Qed.

Lemma split_not_nil (sep : ascii) (s : string) : Text.split sep s <> [].
Proof.
  destruct s as [| c s]; simpl; [discriminate |].
  destruct (Ascii.eqb c sep); [discriminate |].
  destruct (Text.split sep s); discriminate.
Qed.


Lemma split_free (sep : ascii) (s : string) :
  Forall (fun seg => free_of sep seg = true) (Text.split sep s).
Proof.
  induction s as [| c s IH]; simpl.
  - constructor; [reflexivity | constructor].
  - destruct (Ascii.eqb c sep) eqn:Hc.
    + constructor; [reflexivity | exact IH].
    + destruct (Text.split sep s) as [| seg segs]; simpl.
      * constructor; [simpl; rewrite Hc; reflexivity | constructor].
      * inversion IH as [| ? ? Hseg Hsegs]; subst.
        constructor; [simpl; rewrite Hc, Hseg; reflexivity | exact Hsegs].
Qed.

(* ================================================================== *)
(** ** The planner *)

Lemma generateFallback_plan (scanResult : value) (p : Plan) :
  generateFallback scanResult = Ok p ->
  source p = "fallback" /\ plan_invariant p.
Proof.
  unfold generateFallback, plan_invariant.
  destruct (negb (Js.truthy scanResult) || negb (Js.typeof_object scanResult)).
  { intros [= <-]. simpl. tauto. }
  intros H. inv_bind H.
  destruct (negb (Js.truthy a)).
  { injection H as <-. simpl. split; [reflexivity |]. split; discriminate. }
  inv_bind H.
  destruct a0 as [| | | | | issues |]; try (injection H as <-; simpl; tauto).
  inv_bind H. inv_bind H.
  destruct (0 <? length issues)%nat; injection H as <-; simpl.
  - split; [reflexivity |]. split; [discriminate |].
    intros E. apply app_eq_nil in E. destruct E as [_ E]. discriminate E.
  - tauto.
Qed.

(** The buckets come in the order of [severityOrder], each with its
    hints, and the two closing steps follow. *)
Example plan_orders_buckets :
  generateFallback two_bucket_report
  = Ok (mkPlan
          ([Str "Resolve Critical vulnerabilities first (minimist) (apply available patches).";
            Str "Resolve High vulnerabilities first (lodash) (upgrade dependencies to secure versions)."]
             ++ closing_steps)
          false "fallback").
Proof. vm_compute. reflexivity. Qed.

Example plan_without_access :
  generateFallback (Obj [("repositoryAccessible", Bool false);
                         ("issues", Arr [Obj [("severity", Str "high")]])])
  = Ok (mkPlan [restore_access_step] false "fallback").
Proof. reflexivity. Qed.

Section DelegatedProperties.

Variable JSON_parse : string -> Exn value.

Lemma request_plan_plan (remote : Remote) (p : Plan) :
  request_plan JSON_parse remote = Ok p ->
  source p = "openai" /\ (steps p = [] -> noAction p = true).
Proof.
  unfold request_plan. intros H.
  inv_bind H. inv_bind H.
  destruct (negb (Text.nonempty a0)); [discriminate H |].
  inv_bind H. inv_bind H. inv_bind H.
  injection H as <-. simpl. split; [reflexivity |].
  intros ->. simpl. apply orb_true_r.
Qed.

(** [generate] answers with a delegated plan or with whatever the
    deterministic planner answers. *)
Lemma generate_cases (this : Agent) (remote : Remote) (scanResult : value) :
  (exists p, fst (generateWithOpenAI JSON_parse this remote) = Some p
             /\ request_plan JSON_parse remote = Ok p
             /\ fst (generate JSON_parse this remote scanResult) = Ok p)
  \/ (fst (generateWithOpenAI JSON_parse this remote) = None
      /\ fst (generate JSON_parse this remote scanResult)
         = generateFallback scanResult).
Proof.
  unfold generate, generateWithOpenAI.
  destruct (ensureAgent this remote) as [agent this'].
  destruct (negb (Js.truthy agent)); simpl.
  - right. split; reflexivity.
  - destruct (request_plan JSON_parse remote) as [p | e]; simpl.
    + left. exists p. repeat split; reflexivity.
    + right. split; reflexivity.
Qed.

End DelegatedProperties.

(** *** C1: the no-action flag and the steps *)

(** C1, as stated, fails on the delegated path: when the remote answer
    declares [no_action] next to a non-empty list of steps, [generate]
    returns a plan whose [noAction] is true and whose steps are not empty. *)
Lemma delegated_plan_breaks_invariant :
  fst (generate (parse_only declared_text declared_value) fresh_agent
         (answering declared_text) one_issue_report)
  = Ok (mkPlan [Str "Upgrade lodash."] true "openai")
  /\ ~ plan_invariant (mkPlan [Str "Upgrade lodash."] true "openai").
Proof.
  split.
  - vm_compute. reflexivity.
  - unfold plan_invariant. simpl. intros [H _]. specialize (H eq_refl). discriminate H.
Qed.

(** C1 (amended): for every plan returned by [generate], empty steps imply
    [noAction]; the plan comes from the delegated path or from the
    deterministic planner, and for a plan of the deterministic planner
    [noAction] is true if and only if the steps are empty. *)
Theorem generate_noAction (JSON_parse : string -> Exn value)
  (this : Agent) (remote : Remote) (scanResult : value) (p : Plan) :
  fst (generate JSON_parse this remote scanResult) = Ok p ->
  (steps p = [] -> noAction p = true)
  /\ (source p = "openai" \/ source p = "fallback")
  /\ (source p = "fallback" -> plan_invariant p).
Proof.
  intros H.
  destruct (generate_cases JSON_parse this remote scanResult)
    as [(q & _ & Hq & Hg) | (_ & Hg)]; rewrite Hg in H.
  - injection H as ->.
    destruct (request_plan_plan JSON_parse remote p Hq) as [Hs Hn].
    split; [exact Hn |]. split; [left; exact Hs |].
    intros Hf. rewrite Hs in Hf. discriminate Hf.
  - destruct (generateFallback_plan scanResult p H) as [Hs Hi].
    split; [apply Hi |]. split; [right; exact Hs |].
    intros _. exact Hi.
Qed.

Lemma generate_noAction_witness :
  (steps (mkPlan [] true "fallback") = [] -> noAction (mkPlan [] true "fallback") = true)
  /\ (source (mkPlan [] true "fallback") = "openai"
      \/ source (mkPlan [] true "fallback") = "fallback")
  /\ (source (mkPlan [] true "fallback") = "fallback"
      -> plan_invariant (mkPlan [] true "fallback")).
Proof.
  apply (generate_noAction (parse_only declared_text declared_value)
           no_client_agent (answering declared_text) clean_report).
  vm_compute. reflexivity.
Defined.

(** *** C9: failures of the delegated path *)

Lemma nonempty_false (s : string) : Text.nonempty s = false -> s = "".
Proof. destruct s; [reflexivity | discriminate]. Qed.


Lemma get_nullish (v : value) (k : string) :
  Js.nullish v = true -> Js.get v k = Throw TypeError.
Proof. destruct v; simpl; intros H; try discriminate H; reflexivity. Qed.





(** *** C2: the plan for a clean report *)

(** C2, as stated, fails: for a report with no issue and no license
    finding the deterministic planner returns no step at all, not the
    informational step. *)
Lemma clean_report_has_no_step :
  generateFallback clean_report = Ok (mkPlan [] true "fallback")
  /\ ~ (exists p, generateFallback clean_report = Ok p
                  /\ steps p = [no_vulnerabilities_step] /\ noAction p = true).
Proof.
  split; [vm_compute; reflexivity |].
  intros (p & Hp & Hs & _).
  vm_compute in Hp. injection Hp as <-. discriminate Hs.
Qed.

(** C2 (amended): for every report with [repositoryAccessible] true, an
    empty [issues] array and no license step, the deterministic planner
    returns the plan with no steps and [noAction] true; the single
    informational step is what the list-returning planner of
    [src/actionPlanAgent.js] returns for such a report. *)
Theorem no_issues_plan (scanResult accessible : value) :
  Js.get scanResult "repositoryAccessible" = Ok accessible ->
  Js.truthy accessible = true ->
  Js.get scanResult "issues" = Ok (Arr []) ->
  license_steps scanResult = Ok [] ->
  generateFallback scanResult = Ok (mkPlan [] true "fallback")
  /\ Legacy.generate scanResult = Ok [no_vulnerabilities_step].
Proof.
  intros Ha Ht Hi Hl.
  assert (Hobj : negb (Js.truthy scanResult) || negb (Js.typeof_object scanResult) = false).
  { destruct scanResult; simpl in *; try discriminate Ha; try reflexivity;
      injection Ha as <-; discriminate Ht. }
  unfold generateFallback, Legacy.generate.
  rewrite Hobj, Ha. simpl. rewrite Ht. simpl. rewrite Hi. simpl.
  rewrite Hl. simpl. split; reflexivity.
Qed.

Lemma no_issues_plan_witness :
  generateFallback clean_report = Ok (mkPlan [] true "fallback")
  /\ Legacy.generate clean_report = Ok [no_vulnerabilities_step].
Proof.
  apply (no_issues_plan clean_report (Bool true)); reflexivity.
Defined.

(** *** C3: the license step *)

(** With at least one issue, the step of the license findings is part of
    the plan of the deterministic planner. *)
Lemma license_step_kept_with_issues
  (scanResult accessible issue step : value) (issues : list value) (p : Plan) :
  Js.get scanResult "repositoryAccessible" = Ok accessible ->
  Js.truthy accessible = true ->
  Js.get scanResult "issues" = Ok (Arr (issue :: issues)) ->
  license_steps scanResult = Ok [step] ->
  generateFallback scanResult = Ok p ->
  In step (steps p) /\ noAction p = false.
Proof.
  intros Ha Ht Hi Hl.
  assert (Hobj : negb (Js.truthy scanResult) || negb (Js.typeof_object scanResult) = false).
  { destruct scanResult; simpl in *; try discriminate Ha; try reflexivity;
      injection Ha as <-; discriminate Ht. }
  unfold generateFallback.
  rewrite Hobj, Ha. simpl. rewrite Ht. simpl. rewrite Hi. simpl.
  intros H. inv_bind H. rewrite Hl in H. simpl in H. injection H as <-. simpl.
  split; [| reflexivity].
  apply in_or_app. left. apply in_or_app. right. left. reflexivity.
Qed.

(** C3: evaluation at a report with a license finding and no issue.  The
    deterministic planner builds the license step and then returns the
    empty plan; the planner of [src/actionPlanAgent.js] keeps the step. *)
Theorem license_step_lost_without_issues :
  license_steps license_only_report
  = Ok [Str "Review license findings for gpl-lib with legal/compliance teams."]
  /\ generateFallback license_only_report = Ok (mkPlan [] true "fallback")
  /\ Legacy.generate license_only_report
     = Ok [Str "Review license findings for gpl-lib with legal/compliance teams.";
           no_vulnerabilities_step].
Proof.
  repeat split; vm_compute; reflexivity.
Qed.

(** *** C6: the summary of package names *)

Example summarize_six :
  summarizePackages (map named ["a"; "b"; "c"; "d"; "e"; "f"])
  = Ok (Str ("a, b, c, d, e, " ++ ellipsis)).
Proof. vm_compute. reflexivity. Qed.

Example summarize_two :
  summarizePackages (map named ["a"; "b"]) = Ok (Str "a, b").
Proof. vm_compute. reflexivity. Qed.

Example summarize_none : summarizePackages [] = Ok Null.
Proof. reflexivity. Qed.

Lemma existsb_same_value_zero (x : string) (acc : list string) :
  ~ In x acc -> existsb (Js.same_value_zero (Str x)) (map Str acc) = false.
Proof.
  induction acc as [| y acc IH]; simpl; intros H; [reflexivity |].
  apply orb_false_intro.
  - apply String.eqb_neq. intros ->. apply H. left. reflexivity.
  - apply IH. intros Hin. apply H. right. exact Hin.
Qed.

Lemma fold_set_add_nodup (l acc : list string) :
  NoDup (acc ++ l) ->
  fold_left set_add (map Str l) (map Str acc) = map Str (acc ++ l).
Proof.
  revert acc. induction l as [| x l IH]; intros acc H; simpl.
  - rewrite app_nil_r. reflexivity.
  - unfold set_add at 2.
    rewrite existsb_same_value_zero.
    + change (map Str acc ++ [Str x]) with (map Str acc ++ map Str [x]).
      rewrite <- map_app, IH.
      * rewrite <- app_assoc. reflexivity.
      * rewrite <- app_assoc. exact H.
    + apply NoDup_remove_2 in H. intros Hin. apply H.
      apply in_or_app. left. exact Hin.
Qed.

(** A [Set] built from distinct strings holds them all, in order. *)
Lemma new_Set_nodup (l : list string) :
  NoDup l -> new_Set (map Str l) = map Str l.
Proof.
  intros H. apply (fold_set_add_nodup l []). exact H.
Qed.

Lemma mapM_packageName (names : list string) :
  mapM (fun issue => Js.get issue "packageName") (map named names)
  = Ok (map Str names).
Proof.
  induction names as [| n names IH]; simpl; [reflexivity |].
  rewrite IH. reflexivity.
Qed.

Lemma filter_truthy_nonempty (names : list string) :
  Forall (fun s => Text.nonempty s = true) names ->
  filter Js.truthy (map Str names) = map Str names.
Proof.
  induction 1 as [| n names Hn _ IH]; simpl; [reflexivity |].
  rewrite Hn, IH. reflexivity.
Qed.

Lemma join_strings (sep : string) (l : list string) :
  Js.join sep (map Str l) = Ok (Text.join sep l).
Proof.
  unfold Js.join.
  assert (H : mapM (fun x => if Js.nullish x then Ok "" else Js.to_string x) (map Str l)
              = Ok l).
  { induction l as [| s l IH]; simpl; [reflexivity |]. rewrite IH. reflexivity. }
  rewrite H. reflexivity.
Qed.

(** When the issues name distinct packages, the summary is as the
    specification has it: the first five names, and the ellipsis exactly
    when there are more than five. *)
Lemma summarizePackages_distinct (n : string) (names : list string) :
  NoDup (n :: names) ->
  Forall (fun s => Text.nonempty s = true) (n :: names) ->
  summarizePackages (map named (n :: names))
  = Ok (Str (if (5 <? length (n :: names))%nat
             then (Text.join ", " (firstn 5 (n :: names)) ++ ", " ++ ellipsis)%string
             else Text.join ", " (n :: names))).
Proof.
  intros Hd Hne. unfold summarizePackages.
  rewrite mapM_packageName. cbn [bind].
  rewrite (filter_truthy_nonempty _ Hne), (new_Set_nodup _ Hd).
  rewrite !firstn_map.
  rewrite !length_map, length_firstn.
  destruct (Nat.ltb_spec 5 (length (n :: names))) as [Hlt | Hge].
  - rewrite Nat.min_l by lia.
    change (5 =? 0)%nat with false. cbn [bind].
    rewrite join_strings. cbn [bind].
    replace (5 <? length (n :: names))%nat with true
      by (symmetry; apply Nat.ltb_lt; exact Hlt).
    reflexivity.
  - rewrite Nat.min_r by lia.
    replace (length (n :: names) =? 0)%nat with false by reflexivity.
    rewrite firstn_all2 by lia.
    cbn [bind]. rewrite join_strings. cbn [bind].
    rewrite Nat.ltb_irrefl. reflexivity.
Qed.

(** C6: evaluation at two issues of the same package.  There is one
    distinct name, and the summary carries the ellipsis: the test compares
    the list with its duplicates against the names shown. *)
Theorem duplicate_names_get_ellipsis :
  new_Set [Str "lodash"; Str "lodash"] = [Str "lodash"]
  /\ summarizePackages [named "lodash"; named "lodash"]
     = Ok (Str ("lodash, " ++ ellipsis)).
Proof.
  split; vm_compute; reflexivity.
Qed.

(* ================================================================== *)
(** ** The normaliser *)

(** *** C4: the severity counters *)

Lemma counter_increment (c : Counters) (key name : string) :
  In name severityOrder ->
  counter (increment c key) name
  = counter c name + (if String.eqb key name then 1 else 0).
Proof.
  intros Hin. unfold increment.
  destruct (String.eqb_spec key "critical") as [-> | H1];
    [| destruct (String.eqb_spec key "high") as [-> | H2];
       [| destruct (String.eqb_spec key "medium") as [-> | H3];
          [| destruct (String.eqb_spec key "low") as [-> | H4]]]].
  5:{ replace (String.eqb key name) with false; [simpl; lia |].
      symmetry. apply String.eqb_neq. intros ->.
      simpl in Hin. intuition congruence. }
  all: simpl in Hin; destruct Hin as [<- | [<- | [<- | [<- | []]]]];
    unfold counter; simpl; lia.
Qed.

(** The decimal text of a number is not the name of a counter. *)
Lemma number_key (n : Z) (name : string) :
  In name severityOrder ->
  String.eqb (NilZero.string_of_int (Z.to_int n)) name = false.
Proof.
  intros Hin.
  assert (Hd : forall d, String.eqb (NilZero.string_of_uint d) name = false).
  { intros d. simpl in Hin.
    destruct Hin as [<- | [<- | [<- | [<- | []]]]]; destruct d; reflexivity. }
  destruct n as [| p | p]; unfold Z.to_int, NilZero.string_of_int.
  - apply Hd.
  - apply Hd.
  - simpl in Hin. destruct Hin as [<- | [<- | [<- | [<- | []]]]]; reflexivity.
Qed.

(** For a severity that is not an array, the computed property name is the
    name of a counter exactly when the severity is that text. *)
Lemma severity_key (v : value) (key name : string) :
  Js.isArray v = false ->
  Js.truthy v = true ->
  Js.to_string v = Ok key ->
  In name severityOrder ->
  String.eqb key name = Js.strict_eq_str v name.
Proof.
  intros Harr Ht Hk Hin.
  destruct v as [| | b | n | s | items | props]; simpl in *; try discriminate.
  - subst b. injection Hk as <-.
    destruct Hin as [<- | [<- | [<- | [<- | []]]]]; reflexivity.
  - injection Hk as <-. apply number_key. simpl. exact Hin.
  - injection Hk as <-. reflexivity.
  - destruct (Js.has_own "toString" props); [discriminate Hk |].
    injection Hk as <-.
    destruct Hin as [<- | [<- | [<- | [<- | []]]]]; reflexivity.
Qed.

Lemma format_issue_severity (item : value) (i : Issue.t) :
  format_issue item = Ok i -> Js.get item "severity" = Ok (Issue.severity i).
Proof.
  unfold format_issue. intros H.
  repeat (let a := fresh "a" in let Hm := fresh "Hm" in
          apply bind_Ok in H; destruct H as (a & Hm & H)).
  injection H as <-. simpl. assumption.
Qed.

Lemma not_truthy_not_name (v : value) (name : string) :
  Js.truthy v = false -> In name severityOrder -> Js.strict_eq_str v name = false.
Proof.
  intros Ht Hin. destruct v; simpl in *; try reflexivity.
  apply nonempty_false in Ht. subst s.
  destruct Hin as [<- | [<- | [<- | [<- | []]]]]; reflexivity.
Qed.

Lemma count_severity_cons (name : string) (i : Issue.t) (l : list Issue.t) :
  count_severity name (i :: l)
  = (if Js.strict_eq_str (Issue.severity i) name then 1 else 0)
    + count_severity name l.
Proof.
  unfold count_severity. simpl.
  destruct (Js.strict_eq_str (Issue.severity i) name); reflexivity.
Qed.

(** The counting loop and the mapping of the issues run over the same
    list: each counter grows by the number of mapped issues of its
    severity. *)
Lemma count_items_spec (name : string) (raw : list value) :
  In name severityOrder ->
  forall (c c' : Counters) (l : list Issue.t),
    count_items c raw = Ok c' ->
    mapM format_issue raw = Ok l ->
    Forall (fun i => Js.isArray (Issue.severity i) = false) l ->
    counter c' name = counter c name + count_severity name l.
Proof.
  intros Hin. induction raw as [| item raw IH]; simpl; intros c c' l Hc Hm Hf.
  - injection Hc as <-. injection Hm as <-. unfold count_severity. simpl. lia.
  - apply bind_Ok in Hc. destruct Hc as (c1 & Hc1 & Hc).
    apply bind_Ok in Hm. destruct Hm as (i & Hi & Hm).
    apply bind_Ok in Hm. destruct Hm as (l1 & Hl1 & Hm).
    injection Hm as <-.
    inversion Hf as [| ? ? Hsev Hf1]; subst.
    rewrite (IH c1 c' l1 Hc Hl1 Hf1), count_severity_cons.
    unfold count_item in Hc1.
    rewrite (format_issue_severity item i Hi) in Hc1. simpl in Hc1.
    destruct (Js.truthy (Issue.severity i)) eqn:Ht.
    + apply bind_Ok in Hc1. destruct Hc1 as (key & Hkey & Hc1).
      injection Hc1 as <-.
      rewrite (counter_increment c key name Hin).
      rewrite (severity_key _ key name Hsev Ht Hkey Hin).
      destruct (Js.strict_eq_str (Issue.severity i) name); lia.
    + injection Hc1 as <-.
      rewrite (not_truthy_not_name _ name Ht Hin). lia.
Qed.

Lemma recognized_count (l : list Issue.t) :
  count_severity "critical" l + count_severity "high" l
  + count_severity "medium" l + count_severity "low" l
  = length (filter recognized l).
Proof.
  unfold count_severity.
  induction l as [| i l IH]; simpl; [reflexivity |].
  unfold recognized at 1. simpl.
  destruct (Issue.severity i) as [| | | | s | |]; simpl; try exact IH.
  destruct (String.eqb_spec s "critical") as [-> | H1]; simpl; [lia |].
  destruct (String.eqb_spec s "high") as [-> | H2]; simpl; [lia |].
  destruct (String.eqb_spec s "medium") as [-> | H3]; simpl; [lia |].
  destruct (String.eqb_spec s "low") as [-> | H4]; simpl; lia.
Qed.

Lemma formatSnykPayload_parts (payload : value) (context : Context) (r : Report) :
  formatSnykPayload payload context = Ok r ->
  count_items (mkCounters 0 0 0 0) (raw_issues payload) = Ok (summary r)
  /\ mapM format_issue (raw_issues payload) = Ok (issues r)
  /\ mapM format_license (raw_licenses payload) = Ok (licenses r)
  /\ projectName r = resolve_projectName payload (ctx_repoUrl context)
  /\ repositoryAccessible r = true.
Proof.
  unfold formatSnykPayload. intros H.
  apply bind_Ok in H. destruct H as (c & Hc & H).
  apply bind_Ok in H. destruct H as (l & Hl & H).
  apply bind_Ok in H. destruct H as (ls & Hls & H).
  injection H as <-. simpl. repeat split; assumption.
Qed.

(** C4, as stated, fails when a severity is an array: the payload
    [{"vulnerabilities":[{"severity":["high"]}]}] is counted under [high]
    (the computed property name of [["high"]] is [high]), and no issue of
    the report has the severity [high]. *)
Lemma array_severity_is_counted :
  exists r, formatSnykPayload array_severity_payload sample_context = Ok r
            /\ high (summary r) = 1
            /\ map Issue.severity (issues r) = [Arr [Str "high"]]
            /\ count_severity "high" (issues r) = 0
            /\ high (summary r) <> count_severity "high" (issues r).
Proof.
  eexists. split; [vm_compute; reflexivity |].
  simpl. repeat split. discriminate.
Qed.

(** C4 (amended): for every payload the normaliser accepts in which no
    issue has an array for its severity, each of the four counters is the
    number of issues of the report with that severity, their sum is the
    number of issues with a recognised severity, and every raw issue is in
    the report, counted or not. *)
Theorem severity_counters (payload : value) (context : Context) (r : Report) :
  formatSnykPayload payload context = Ok r ->
  Forall (fun i => Js.isArray (Issue.severity i) = false) (issues r) ->
  critical (summary r) = count_severity "critical" (issues r)
  /\ high (summary r) = count_severity "high" (issues r)
  /\ medium (summary r) = count_severity "medium" (issues r)
  /\ low (summary r) = count_severity "low" (issues r)
  /\ critical (summary r) + high (summary r) + medium (summary r) + low (summary r)
     = length (filter recognized (issues r))
  /\ length (issues r) = length (raw_issues payload).
Proof.
  intros H Hf.
  destruct (formatSnykPayload_parts payload context r H) as (Hc & Hl & _).
  assert (Hn : forall name, In name severityOrder ->
                 counter (summary r) name = count_severity name (issues r)).
  { intros name Hin.
    rewrite (count_items_spec name _ Hin _ _ _ Hc Hl Hf).
    simpl in Hin. destruct Hin as [<- | [<- | [<- | [<- | []]]]]; reflexivity. }
  assert (H1 := Hn "critical"). assert (H2 := Hn "high").
  assert (H3 := Hn "medium"). assert (H4 := Hn "low").
  simpl in H1, H2, H3, H4.
  rewrite <- H1, <- H2, <- H3, <- H4 by tauto.
  assert (Hsum := recognized_count (issues r)).
  rewrite <- H1, <- H2, <- H3, <- H4 in Hsum by tauto.
  repeat split; try reflexivity.
  - exact Hsum.
  - apply (mapM_length _ _ _ Hl).
Qed.

Lemma severity_counters_witness :
  exists r, formatSnykPayload mixed_payload sample_context = Ok r
            /\ critical (summary r) = count_severity "critical" (issues r)
            /\ high (summary r) = count_severity "high" (issues r)
            /\ medium (summary r) = count_severity "medium" (issues r)
            /\ low (summary r) = count_severity "low" (issues r)
            /\ critical (summary r) + high (summary r) + medium (summary r)
               + low (summary r)
               = length (filter recognized (issues r))
            /\ length (issues r) = length (raw_issues mixed_payload).
Proof.
  eexists. split; [vm_compute; reflexivity |].
  apply (severity_counters mixed_payload sample_context).
  - vm_compute. reflexivity.
  - repeat constructor.
Defined.

(** *** C7: defaults of the mapped issue *)

Lemma get_Ok (v x : value) (k : string) :
  Js.get v k = Ok x -> x = Js.get_opt v k.
Proof.
  destruct v; simpl; intros H; try discriminate H; injection H as <-; reflexivity.
Qed.

(** C7, as stated, fails for [from]: a raw issue without [from] is mapped
    to an issue whose [from] is [undefined], not the empty list. *)
Lemma missing_from_is_not_defaulted :
  exists i, format_issue bare_issue = Ok i
            /\ Issue.from i = Undefined
            /\ Issue.from i <> Arr []
            /\ Issue.upgradePath i = Arr [].
Proof.
  eexists. split; [vm_compute; reflexivity |].
  simpl. repeat split. discriminate.
Qed.

(** C7 (amended): for every raw issue the normaliser maps, [upgradePath]
    is the empty list when the raw field is missing, [from] is the raw
    field as it is ([undefined] when missing), and [url] is the raw [url]
    when that is truthy, else the first entry of [identifiers.url] when
    that is truthy, else [null]. *)
Theorem format_issue_defaults (item : value) (i : Issue.t) :
  format_issue item = Ok i ->
  (Js.get_opt item "upgradePath" = Undefined -> Issue.upgradePath i = Arr [])
  /\ Issue.from i = Js.get_opt item "from"
  /\ (Js.truthy (Js.get_opt item "url") = true ->
      Issue.url i = Js.get_opt item "url")
  /\ (Js.truthy (Js.get_opt item "url") = false ->
      Js.truthy (first_identifier_url item) = true ->
      Issue.url i = first_identifier_url item)
  /\ (Js.truthy (Js.get_opt item "url") = false ->
      Js.truthy (first_identifier_url item) = false ->
      Issue.url i = Null).
Proof.
  unfold format_issue, first_identifier_url. intros H.
  repeat (let a := fresh "a" in let Hm := fresh "Hm" in
          apply bind_Ok in H; destruct H as (a & Hm & H)).
  injection H as <-. simpl.
  repeat match goal with
         | Hg : Js.get item _ = Ok _ |- _ => apply get_Ok in Hg; subst
         end.
  unfold Js.or.
  split; [intros ->; reflexivity |].
  split; [reflexivity |].
  split; [intros Ht; rewrite Ht; cbn iota; rewrite Ht; reflexivity |].
  split; intros Ht Hf; rewrite Ht; cbn iota; rewrite Hf; reflexivity.
Qed.

Lemma format_issue_defaults_witness :
  exists i, format_issue bare_issue = Ok i
            /\ Issue.upgradePath i = Arr []
            /\ Issue.from i = Undefined
            /\ Issue.url i = Null.
Proof.
  eexists. split; [vm_compute; reflexivity |].
  pose proof (format_issue_defaults bare_issue _ eq_refl) as (Hu & Hf & _ & _ & Hn).
  split; [exact (Hu eq_refl) |].
  split; [exact Hf |].
  exact (Hn eq_refl eq_refl).
Defined.

(** *** C10: the project name derived from the repository location *)




(** The location cleaned: with a trailing [.git], the text before it;
    without one, the trimmed text. *)
Lemma cleaned_location_git (repoUrl t : string) :
  Text.trim repoUrl = (t ++ ".git")%string -> cleaned_location repoUrl = t.
Proof.
  intros H. unfold cleaned_location. rewrite H. apply strip_suffix_app.
Qed.

Lemma cleaned_location_other (repoUrl : string) :
  (forall t, Text.trim repoUrl <> (t ++ ".git")%string) ->
  cleaned_location repoUrl = Text.trim repoUrl.
Proof.
  intros H. unfold cleaned_location. apply strip_suffix_other, H.
Qed.

Example deriveRepoName_github :
  deriveRepoName (Str " https://github.com/org/project.git ") = "org/project".
Proof. vm_compute. reflexivity. Qed.

Example deriveRepoName_single : deriveRepoName (Str "project") = "project".
Proof. vm_compute. reflexivity. Qed.

Example unknown_project :
  exists r, formatSnykPayload (Obj []) (mkContext (Str "/") (Str "snyk test")) = Ok r
            /\ projectName r = Str "Unknown project".
Proof. eexists. split; vm_compute; reflexivity. Qed.

(* ================================================================== *)
(** ** The request pipeline *)

Lemma In_cleanUpDir (e : event) (w : World) (dirPath : string) :
  In e (cleanUpDir w dirPath) ->
  e = CleanUpDir dirPath \/ e = FsRm dirPath \/ e = Warn dirPath.
Proof.
  unfold cleanUpDir. intros [H | H]; [left; symmetry; exact H |].
  destruct (negb (Text.nonempty dirPath)); [contradiction |].
  destruct H as [H | H]; [right; left; symmetry; exact H |].
  destruct (rm w); [| contradiction].
  destruct H as [H | []]. right. right. symmetry. exact H.
Qed.

Lemma cleanUpDir_attempt (w : World) (dirPath : string) :
  In (CleanUpDir dirPath) (cleanUpDir w dirPath)
  /\ (Text.nonempty dirPath = true -> In (FsRm dirPath) (cleanUpDir w dirPath)).
Proof.
  unfold cleanUpDir. split; [left; reflexivity |].
  intros ->. right. left. reflexivity.
Qed.

(** Splits a hypothesis of membership in a trace into one case per event. *)
Ltac split_in H :=
  repeat rewrite in_app_iff in H; cbn [In] in H;
  repeat match type of H with
         | _ \/ _ => destruct H as [H | H]
         end.

(** Closes the cases where the event at hand is another one. *)
Ltac other_event :=
  match goal with
  | H : In _ (cleanUpDir _ _) |- _ =>
      apply In_cleanUpDir in H; destruct H as [H | [H | H]]; discriminate H
  | H : _ = _ |- _ => discriminate H
  | H : False |- _ => contradiction
  end.

Section PipelineProperties.

Variable JSON_parse : string -> Exn value.
Variable SNYK_COMMAND : string.

Local Abbreviation handler := (scan_handler JSON_parse SNYK_COMMAND).

(** The responses of the last stage: the tool-reported error, the report,
    or -- through the [catch] -- the parse failure. *)
Lemma parse_and_plan_response (this : Agent) (w : World) (repoUrl scanOutput : value)
  (status : nat) (body : response_body) :
  fst (parse_and_plan JSON_parse SNYK_COMMAND this w repoUrl scanOutput)
  = Ok (status, body) ->
  (exists d, body = ErrorBody "Snyk scan reported an error." d Undefined)
  \/ (exists formatted plan, body = ScanBody formatted plan).
Proof.
  unfold parse_and_plan.
  destruct (text <- Js.to_string scanOutput ;; JSON_parse text) as [parsed | e];
    [| discriminate].
  destruct (Js.truthy _).
  - simpl. intros H. inv_bind H. inv_bind H. inv_bind H.
    injection H as _ <-. left. eauto.
  - destruct (formatSnykPayload parsed _) as [formatted | e]; [| discriminate].
    destruct (generate _ _ _ _) as [actionPlan this']. simpl.
    intros H. inv_bind H. injection H as _ <-. right. eauto.
Qed.


(** *** C5: a scanner that exits non-zero *)


(** *** C8: the workspace is cleaned on every path *)

(** C8: in every run of the handler that created a workspace -- whether
    it ends with the report, a failed clone, a failed scan, an error
    reported by the tool or output that does not parse -- [cleanUpDir] is
    called on that workspace before the handler is done, and it attempts the
    removal ([fs.rm]) of the directory. *)
Theorem workspace_is_cleaned (this : Agent) (w : World) (repoUrl : value)
  (dir : string) :
  In (Mkdtemp dir) (trace (handler this w repoUrl)) ->
  In (CleanUpDir dir) (trace (handler this w repoUrl))
  /\ (Text.nonempty dir = true -> In (FsRm dir) (trace (handler this w repoUrl))).
Proof.
  unfold scan_handler.
  assert (Hdone : forall l,
            incl (cleanUpDir w dir) l ->
            In (CleanUpDir dir) l /\ (Text.nonempty dir = true -> In (FsRm dir) l)).
  { intros l Hl. destruct (cleanUpDir_attempt w dir) as [Hc Hr].
    split; [| intros Hn]; apply Hl; auto. }
  destruct repoUrl as [| | | | url | |]; cbn [trace];
    try (intros Hin; split_in Hin; other_event).
  destruct (negb (Text.nonempty url));
    [cbn [trace]; intros Hin; split_in Hin; other_event |].
  destruct (mkdtemp w) as [baseTempDir | e];
    [| cbn [trace]; intros Hin; split_in Hin; other_event].
  assert (Hsame : forall rest,
            In (Mkdtemp dir)
               ([Mkdtemp baseTempDir; GitClone url (baseTempDir ++ "/repo")%string] ++ rest) ->
            (forall e, In e rest -> e <> Mkdtemp dir) ->
            baseTempDir = dir).
  { intros rest Hin Hrest. split_in Hin.
    - injection Hin as ->. reflexivity.
    - discriminate Hin.
    - contradiction.
    - exfalso. exact (Hrest _ Hin eq_refl). }
  destruct (clone w) as [message |].
  - cbn [trace]. intros Hin.
    apply Hsame in Hin.
    + subst baseTempDir. apply Hdone.
      intros e He. rewrite !in_app_iff. tauto.
    + intros e He ->. split_in He; other_event.
  - destruct (run_scan (exec w)) as [scanOutput | [d | e]].
    + destruct (parse_and_plan _ _ _ _ _ _) as [result this']. cbn [trace].
      intros Hin. rewrite <- app_assoc in Hin.
      apply Hsame in Hin.
      * subst baseTempDir. apply Hdone.
        intros e He. rewrite !in_app_iff. tauto.
      * intros e He ->. split_in He; other_event.
    + cbn [trace]. intros Hin. rewrite <- app_assoc in Hin.
      apply Hsame in Hin.
      * subst baseTempDir. apply Hdone.
        intros e He. rewrite !in_app_iff. tauto.
      * intros e He ->. split_in He; other_event.
    + cbn [trace]. intros Hin. rewrite <- app_assoc in Hin.
      apply Hsame in Hin.
      * subst baseTempDir. apply Hdone.
        intros e0 He. rewrite !in_app_iff. tauto.
      * intros e0 He ->. split_in He; other_event.
Qed.

End PipelineProperties.


Lemma workspace_is_cleaned_witness :
  In (CleanUpDir sample_dir)
     (trace (scan_handler (parse_only "{}" (Obj [])) sample_command no_client_agent
               (sample_world (ExecOk (Str "not json"))) sample_url))
  /\ In (FsRm sample_dir)
        (trace (scan_handler (parse_only "{}" (Obj [])) sample_command no_client_agent
                  (sample_world (ExecOk (Str "not json"))) sample_url)).
Proof.
  destruct (workspace_is_cleaned (parse_only "{}" (Obj [])) sample_command
              no_client_agent (sample_world (ExecOk (Str "not json")))
              sample_url sample_dir) as [Hcall Hrm].
  - left. reflexivity.
  - split; [exact Hcall | exact (Hrm eq_refl)].
Defined.

(** Runs of the handler on the scenarios of the specification. *)

Example run_unparseable_output :
  trace (scan_handler (parse_only "{}" (Obj [])) sample_command no_client_agent
           (sample_world (ExecOk (Str "not json"))) sample_url)
  = [Mkdtemp sample_dir;
     GitClone "https://github.com/org/project" (sample_dir ++ "/repo");
     RunScanner (sample_dir ++ "/repo");
     Respond 500 (ErrorBody "Unable to parse Snyk output." (MessageOf SyntaxError)
                            (Str "not json"));
     CleanUpDir sample_dir; FsRm sample_dir].
Proof. vm_compute. reflexivity. Qed.

Example run_failed_clone :
  trace (scan_handler (parse_only "{}" (Obj [])) sample_command no_client_agent
           (mkWorld (Ok sample_dir) (Some (Str "repository not found"))
                    (ExecOk (Str "{}")) None (answering "{}"))
           sample_url)
  = [Mkdtemp sample_dir;
     GitClone "https://github.com/org/project" (sample_dir ++ "/repo");
     CleanUpDir sample_dir; FsRm sample_dir;
     Respond 400 (ErrorBody "Failed to clone repository."
                            (Details (Str "repository not found")) Undefined)].
Proof. vm_compute. reflexivity. Qed.

Example run_clean_report :
  exists formatted,
    formatSnykPayload clean_payload (mkContext sample_url (Str sample_command))
    = Ok formatted
    /\ issues formatted = []
    /\ summary formatted = mkCounters 0 0 0 0
    /\ trace (scan_handler (parse_only clean_text clean_payload) sample_command
                no_client_agent
                (sample_world (ExecOk (Str clean_text))) sample_url)
       = [Mkdtemp sample_dir;
          GitClone "https://github.com/org/project" (sample_dir ++ "/repo");
          RunScanner (sample_dir ++ "/repo");
          Respond 200 (ScanBody formatted (mkPlan [] true "fallback"));
          CleanUpDir sample_dir; FsRm sample_dir].
Proof.
  eexists. split; [vm_compute; reflexivity |].
  split; [reflexivity |]. split; [reflexivity |].
  vm_compute. reflexivity.
Qed.

(* ================================================================== *)
(** * Further properties of the code *)

(** ** [summarizePackages] and its [Set] *)

Lemma filter_filter_and {A : Type} (p q : A -> bool) (l : list A) :
  filter p (filter q l) = filter (fun x => q x && p x) l.
Proof.
  induction l as [| x l IH]; simpl; [reflexivity |].
  destruct (q x); simpl; [destruct (p x) |]; rewrite IH; reflexivity.
Qed.

Lemma existsb_same_value_zero_str (x : string) (acc : list string) :
  existsb (Js.same_value_zero (Str x)) (map Str acc) = existsb (String.eqb x) acc.
Proof.
  induction acc as [| y acc IH]; simpl; [reflexivity |]. rewrite IH. reflexivity.
Qed.

Lemma fold_set_add_first_seen (l acc : list string) :
  fold_left set_add (map Str l) (map Str acc)
  = map Str (acc ++ filter (fun y => negb (existsb (String.eqb y) acc)) (first_seen l)).
Proof.
  revert acc. induction l as [| x l IH]; intros acc; simpl.
  - rewrite app_nil_r. reflexivity.
  - unfold set_add at 2. rewrite existsb_same_value_zero_str.
    destruct (existsb (String.eqb x) acc) eqn:Hx; simpl.
    + rewrite IH. f_equal. f_equal.
      rewrite filter_filter_and. apply filter_ext_in. intros y _.
      destruct (String.eqb_spec x y) as [<- | Hne]; simpl; [| reflexivity].
      rewrite Hx. reflexivity.
    + change (map Str acc ++ [Str x]) with (map Str acc ++ map Str [x]).
      rewrite <- map_app, IH, <- app_assoc. simpl. f_equal. f_equal. f_equal.
      rewrite filter_filter_and. apply filter_ext_in. intros y _.
      rewrite existsb_app. simpl. rewrite orb_false_r.
      rewrite (String.eqb_sym y x).
      destruct (String.eqb x y); simpl;
        [rewrite orb_true_r | rewrite orb_false_r]; reflexivity.
Qed.

(** The [Set] of a list of strings holds its distinct elements in the
    order they first come. *)
Lemma new_Set_first_seen (l : list string) :
  new_Set (map Str l) = map Str (first_seen l).
Proof.
  unfold new_Set. change (@nil value) with (map Str []).
  rewrite (fold_set_add_first_seen l []). simpl.
  f_equal. induction (first_seen l) as [| x xs IH]; simpl; [reflexivity |].
  rewrite IH. reflexivity.
Qed.

Lemma first_seen_In (x : string) (l : list string) :
  In x (first_seen l) <-> In x l.
Proof.
  induction l as [| y l IH]; simpl; [tauto |].
  rewrite filter_In, IH.
  destruct (String.eqb_spec y x) as [-> | Hne]; simpl; [tauto |].
  split; [tauto |]. intros [H | H]; [left; exact H | right; split; [exact H | reflexivity]].
Qed.

Lemma first_seen_NoDup (l : list string) : NoDup (first_seen l).
Proof.
  induction l as [| y l IH]; simpl; constructor.
  - rewrite filter_In. intros [_ H]. rewrite String.eqb_refl in H. discriminate H.
  - apply NoDup_filter, IH.
Qed.

Lemma first_seen_length (l : list string) : length (first_seen l) <= length l.
Proof.
  induction l as [| y l IH]; simpl; [lia |].
  pose proof (filter_length_le (fun z => negb (String.eqb y z)) (first_seen l)). lia.
Qed.

Lemma firstn_incl {A : Type} (n : nat) (l : list A) (x : A) :
  In x (firstn n l) -> In x l.
Proof.
  revert l. induction n as [| n IH]; intros [| y l]; simpl; try tauto.
  intros [H | H]; [left; exact H | right; apply IH, H].
Qed.

Lemma firstn_NoDup {A : Type} (n : nat) (l : list A) :
  NoDup l -> NoDup (firstn n l).
Proof.
  revert l. induction n as [| n IH]; intros [| y l] H; simpl; try constructor.
  - inversion H as [| ? ? Hy _]; subst. intros Hin. apply Hy, (firstn_incl n), Hin.
  - inversion H; subst. apply IH. assumption.
Qed.

(** X1.  For issues that name packages by strings, [summarizePackages]
    shows the distinct non-empty names in the order they first come, five
    at most, joined by [", "]; it answers [null] when there is none; and it
    appends the ellipsis exactly when there are more non-empty names (with
    their repetitions) than names shown -- always when more than five
    distinct names exist. *)
Theorem summarizePackages_names (names : list string) :
  summarizePackages (map named names)
  = match shown_names names with
    | [] => Ok Null
    | shown =>
        Ok (Str (if (length shown <? length (filter Text.nonempty names))%nat
                 then (Text.join ", " shown ++ ", " ++ ellipsis)%string
                 else Text.join ", " shown))
    end
  /\ NoDup (shown_names names)
  /\ length (shown_names names) <= 5
  /\ (forall x, In x (shown_names names) -> In x names /\ Text.nonempty x = true)
  /\ (shown_names names = [] <-> Forall (fun x => Text.nonempty x = false) names)
  /\ (5 < length (first_seen (filter Text.nonempty names)) ->
      (length (shown_names names) <? length (filter Text.nonempty names))%nat = true).
Proof.
  unfold shown_names.
  set (packages := filter Text.nonempty names).
  split; [| split; [| split; [| split; [| split]]]].
  - unfold summarizePackages.
    rewrite mapM_packageName. cbn [bind].
    assert (Hf : filter Js.truthy (map Str names) = map Str packages).
    { unfold packages. induction names as [| n ns IH]; simpl; [reflexivity |].
      destruct (Text.nonempty n); simpl; rewrite IH; reflexivity. }
    rewrite Hf, new_Set_first_seen, firstn_map, !length_map.
    destruct (firstn 5 (first_seen packages)) as [| s shown] eqn:Hs; [reflexivity |].
    cbn [length Nat.eqb]. rewrite join_strings. cbn [bind]. reflexivity.
  - apply firstn_NoDup, first_seen_NoDup.
  - rewrite length_firstn. lia.
  - intros x Hx. apply firstn_incl in Hx.
    apply (proj1 (first_seen_In _ _)) in Hx.
    unfold packages in Hx. apply filter_In in Hx. exact Hx.
  - split.
    + intros H. apply Forall_forall. intros x Hx.
      destruct (Text.nonempty x) eqn:Hn; [| reflexivity]. exfalso.
      assert (Hin : In x packages) by (apply filter_In; split; assumption).
      apply (proj2 (first_seen_In _ _)) in Hin.
      destruct (first_seen packages) as [| y ys]; [contradiction | discriminate H].
    + intros H.
      assert (Hp : packages = []).
      { unfold packages. induction H as [| x l Hx _ IH]; simpl; [reflexivity |].
        rewrite Hx. exact IH. }
      rewrite Hp. reflexivity.
  - intros H. apply Nat.ltb_lt. rewrite length_firstn.
    pose proof (first_seen_length packages). lia.
Qed.

Lemma summarizePackages_names_witness :
  (length (shown_names ["a"; "b"; "c"; "d"; "e"; "f"])
   <? length (filter Text.nonempty ["a"; "b"; "c"; "d"; "e"; "f"]))%nat = true.
Proof.
  apply (summarizePackages_names ["a"; "b"; "c"; "d"; "e"; "f"]).
  simpl. lia.
Defined.

Lemma fold_set_add_length (l acc : list value) :
  length acc <= length (fold_left set_add l acc).
Proof.
  revert acc. induction l as [| x l IH]; intros acc; simpl; [lia |].
  specialize (IH (set_add acc x)). unfold set_add in *.
  destruct (existsb (Js.same_value_zero x) acc); [exact IH |].
  rewrite length_app in IH. simpl in IH. lia.
Qed.

Lemma new_Set_nil (l : list value) : new_Set l = [] -> l = [].
Proof.
  destruct l as [| x l]; [reflexivity |].
  intros H.
  pose proof (fold_set_add_length l (set_add [] x)) as Hlen.
  change (fold_left set_add l (set_add [] x)) with (new_Set (x :: l)) in Hlen.
  rewrite H in Hlen. simpl in Hlen. lia.
Qed.

(** X2.  Whatever the issues hold, [summarizePackages] answers [null]
    exactly when no issue has a truthy [packageName], and otherwise a
    string (or it throws, on a name that cannot be printed). *)
Theorem summarizePackages_null (issues names : list value) :
  mapM (fun issue => Js.get issue "packageName") issues = Ok names ->
  (summarizePackages issues = Ok Null <-> filter Js.truthy names = [])
  /\ (forall v, summarizePackages issues = Ok v -> v = Null \/ exists s, v = Str s).
Proof.
  intros Hn. unfold summarizePackages. rewrite Hn. cbn [bind].
  set (packages := filter Js.truthy names).
  destruct (firstn 5 (new_Set packages)) as [| u us] eqn:Hu.
  - cbn [length Nat.eqb].
    assert (Hp : packages = []).
    { apply new_Set_nil. destruct (new_Set packages); [reflexivity | discriminate Hu]. }
    split; [tauto |]. intros v [= <-]. left. reflexivity.
  - cbn [length Nat.eqb].
    assert (Hp : packages <> []).
    { intros Hp. rewrite Hp in Hu. discriminate Hu. }
    split.
    + split; [| contradiction].
      destruct (Js.join ", " (u :: us)); cbn [bind]; discriminate.
    + intros v H. destruct (Js.join ", " (u :: us)); cbn [bind] in H; [| discriminate H].
      injection H as <-. right. eauto.
Qed.

Lemma summarizePackages_null_witness :
  summarizePackages [Obj [("packageName", Str "")]; Obj []] = Ok Null.
Proof.
  apply (summarizePackages_null [Obj [("packageName", Str "")]; Obj []]
           [Str ""; Undefined] eq_refl).
  reflexivity.
Defined.

(** ** The deterministic planner *)

Lemma get_Ok_opt (v : value) (k : string) :
  Js.nullish v = false -> Js.get v k = Ok (Js.get_opt v k).
Proof. destruct v; simpl; intros H; try discriminate H; reflexivity. Qed.

Lemma get_cases (v : value) (k : string) :
  (Js.nullish v = true /\ Js.get v k = Throw TypeError)
  \/ (Js.nullish v = false /\ Js.get v k = Ok (Js.get_opt v k)).
Proof. destruct v; simpl; auto. Qed.

(** A bucket holds the issues of its severity, in their order. *)
Lemma bucket_spec (severity : string) (issues b : list value) :
  bucket severity issues = Ok b ->
  b = filter (of_severity severity) issues
  /\ Forall (fun i => Js.nullish i = false) issues.
Proof.
  unfold bucket. revert b. induction issues as [| i issues IH]; simpl; intros b H.
  - injection H as <-. split; [reflexivity | constructor].
  - inv_bind H. inv_bind H. injection H as <-.
    destruct (IH _ Hm0) as [-> Hall].
    inv_bind Hm. injection Hm as <-.
    destruct (get_cases i "severity") as [[_ Hg] | [Hi Hg]]; rewrite Hg in Hm1;
      [discriminate Hm1 |].
    injection Hm1 as <-. split; [reflexivity | constructor; assumption].
Qed.

Lemma bucket_total (severity : string) (issues : list value) :
  Forall (fun i => Js.nullish i = false) issues ->
  bucket severity issues = Ok (filter (of_severity severity) issues).
Proof.
  unfold bucket. induction 1 as [| i issues Hi _ IH]; simpl; [reflexivity |].
  rewrite (get_Ok_opt i "severity" Hi). cbn [bind]. rewrite IH. reflexivity.
Qed.

Lemma filter_nil_existsb {A : Type} (p : A -> bool) (l : list A) :
  existsb p l = match filter p l with [] => false | _ => true end.
Proof.
  induction l as [| x l IH]; simpl; [reflexivity |].
  destruct (p x); simpl; [reflexivity | exact IH].
Qed.

Lemma append_assoc (a b c : string) : ((a ++ b) ++ c = a ++ (b ++ c))%string.
Proof. induction a as [| x a IH]; simpl; [reflexivity | rewrite IH; reflexivity]. Qed.

Lemma severity_step_spec (severity : string) (issues steps : list value) :
  severity_step severity (filter (of_severity severity) issues) = Ok steps ->
  step_for severity issues steps.
Proof.
  unfold step_for. rewrite filter_nil_existsb.
  destruct (filter (of_severity severity) issues) as [| i b]; simpl.
  - intros [= <-]. reflexivity.
  - intros H. inv_bind H. inv_bind H. inv_bind H. injection H as <-.
    eexists. rewrite append_assoc. reflexivity.
Qed.

(** The steps for the severities: one list per severity, in the order
    critical, high, medium, low. *)
Lemma severity_steps_spec (issues steps : list value) :
  severity_steps issues = Ok steps ->
  exists c h m l,
    steps = c ++ h ++ m ++ l
    /\ step_for "critical" issues c /\ step_for "high" issues h
    /\ step_for "medium" issues m /\ step_for "low" issues l.
Proof.
  unfold severity_steps. intros H. inv_bind H.
  simpl in Hm.
  apply bind_Ok in Hm. destruct Hm as (bc & Hbc & Hm).
  apply bind_Ok in Hm. destruct Hm as (rest1 & Hm1 & Hm).
  injection Hm as <-.
  apply bind_Ok in Hm1. destruct Hm1 as (bh & Hbh & Hm1).
  apply bind_Ok in Hm1. destruct Hm1 as (rest2 & Hm2 & Hm1).
  injection Hm1 as <-.
  apply bind_Ok in Hm2. destruct Hm2 as (bm & Hbm & Hm2).
  apply bind_Ok in Hm2. destruct Hm2 as (rest3 & Hm3 & Hm2).
  injection Hm2 as <-.
  apply bind_Ok in Hm3. destruct Hm3 as (bl & Hbl & Hm3).
  injection Hm3 as <-.
  apply bucket_spec in Hbc, Hbh, Hbm, Hbl.
  destruct Hbc as [-> _], Hbh as [-> _], Hbm as [-> _], Hbl as [-> _].
  inv_bind H. injection H as <-.
  simpl in Hm.
  apply bind_Ok in Hm. destruct Hm as (c & Hc & Hm).
  apply bind_Ok in Hm. destruct Hm as (r1 & Hr1 & Hm). injection Hm as <-.
  apply bind_Ok in Hr1. destruct Hr1 as (h & Hh & Hr1).
  apply bind_Ok in Hr1. destruct Hr1 as (r2 & Hr2 & Hr1). injection Hr1 as <-.
  apply bind_Ok in Hr2. destruct Hr2 as (m & Hmm & Hr2).
  apply bind_Ok in Hr2. destruct Hr2 as (r3 & Hr3 & Hr2). injection Hr2 as <-.
  apply bind_Ok in Hr3. destruct Hr3 as (l & Hl & Hr3).
  injection Hr3 as <-.
  exists c, h, m, l. simpl. rewrite app_nil_r.
  repeat split; try reflexivity; apply severity_step_spec; assumption.
Qed.

Lemma license_steps_spec (scanResult : value) (steps : list value) :
  license_steps scanResult = Ok steps -> license_step_shape steps.
Proof.
  unfold license_steps, license_step_shape. intros H. inv_bind H.
  destruct a as [| | | | | [| l ls] |]; try (injection H as <-; left; reflexivity).
  inv_bind H. inv_bind H. injection H as <-. right. eexists. reflexivity.
Qed.

Lemma step_for_length (severity : string) (issues steps : list value) :
  step_for severity issues steps ->
  length steps = (if existsb (of_severity severity) issues then 1 else 0)
  /\ forallb is_str steps = true.
Proof.
  unfold step_for. destruct (existsb _ issues).
  - intros [rest ->]. split; reflexivity.
  - intros ->. split; reflexivity.
Qed.

(** X3.  A plan of the deterministic planner that asks for action is
    either the single step that asks to restore access, or: for each of
    critical, high, medium, low in this order, one step that opens with
    ["Resolve <Severity> vulnerabilities first"] if some issue has that
    severity and none otherwise; then at most one step for the license
    findings; then the two closing steps.  So it has between two and seven
    steps, all strings. *)
Theorem fallback_plan_structure (scanResult : value) (p : Plan) :
  generateFallback scanResult = Ok p ->
  noAction p = false ->
  steps p = [restore_access_step]
  \/ exists issues c h m l lic,
       Js.get_opt scanResult "issues" = Arr issues
       /\ issues <> []
       /\ steps p = c ++ h ++ m ++ l ++ lic ++ closing_steps
       /\ step_for "critical" issues c /\ step_for "high" issues h
       /\ step_for "medium" issues m /\ step_for "low" issues l
       /\ license_step_shape lic
       /\ 2 <= length (steps p) <= 7
       /\ forallb is_str (steps p) = true.
Proof.
  unfold generateFallback.
  destruct (negb (Js.truthy scanResult) || negb (Js.typeof_object scanResult)).
  { intros [= <-]. discriminate. }
  intros H. inv_bind H.
  destruct (negb (Js.truthy a)).
  { injection H as <-. intros _. left. reflexivity. }
  inv_bind H. apply get_Ok in Hm0. subst a0.
  destruct (Js.get_opt scanResult "issues") as [| | | | | issues |] eqn:Hi;
    try (injection H as <-; discriminate).
  inv_bind H. inv_bind H.
  destruct issues as [| i issues]; simpl in H; injection H as <-; [discriminate |].
  intros _. right.
  destruct (severity_steps_spec _ _ Hm0) as (c & h & m & l & -> & Hc & Hh & Hmd & Hl).
  pose proof (license_steps_spec _ _ Hm1) as Hlic.
  exists (i :: issues), c, h, m, l, a1.
  split; [reflexivity |]. split; [discriminate |].
  split; [simpl; rewrite <- !app_assoc; reflexivity |].
  repeat (split; [assumption |]).
  destruct (step_for_length _ _ _ Hc) as [Lc Sc].
  destruct (step_for_length _ _ _ Hh) as [Lh Sh].
  destruct (step_for_length _ _ _ Hmd) as [Lm Sm].
  destruct (step_for_length _ _ _ Hl) as [Ll Sl].
  assert (Llic : length a1 <= 1 /\ forallb is_str a1 = true).
  { destruct Hlic as [-> | [pkgs ->]]; simpl; split; auto. }
  cbn [steps]. rewrite !length_app, !forallb_app, Sc, Sh, Sm, Sl.
  rewrite Lc, Lh, Lm, Ll. destruct Llic as [Llic ->].
  generalize (existsb (of_severity "critical") (i :: issues)),
             (existsb (of_severity "high") (i :: issues)),
             (existsb (of_severity "medium") (i :: issues)),
             (existsb (of_severity "low") (i :: issues)).
  intros b1 b2 b3 b4. unfold closing_steps.
  split; [| reflexivity].
  destruct b1, b2, b3, b4; cbn [length]; lia.
Qed.

Lemma fallback_plan_structure_witness :
  steps (mkPlan (Str "Resolve High vulnerabilities first (lodash)." :: closing_steps)
                false "fallback")
  = [restore_access_step]
  \/ exists issues c h m l lic,
       Js.get_opt one_issue_report "issues" = Arr issues
       /\ issues <> []
       /\ steps (mkPlan (Str "Resolve High vulnerabilities first (lodash)."
                           :: closing_steps) false "fallback")
          = c ++ h ++ m ++ l ++ lic ++ closing_steps
       /\ step_for "critical" issues c /\ step_for "high" issues h
       /\ step_for "medium" issues m /\ step_for "low" issues l
       /\ license_step_shape lic
       /\ 2 <= length (steps (mkPlan (Str "Resolve High vulnerabilities first (lodash)."
                                        :: closing_steps) false "fallback")) <= 7
       /\ forallb is_str
            (steps (mkPlan (Str "Resolve High vulnerabilities first (lodash)."
                              :: closing_steps) false "fallback")) = true.
Proof.
  apply (fallback_plan_structure one_issue_report).
  - vm_compute. reflexivity.
  - reflexivity.
Defined.

(** ** The two planners *)

(** X4.  The planner of [src/actionPlanAgent.js] and the deterministic
    planner of [ActionPlanAgent] fail on the same reports, with the same
    error; when the latter asks for action, its steps are the plan of the
    former; when it asks for none, the former returns nothing or the license
    step, if any, followed by the "no vulnerabilities" step. *)
Theorem planners_agree (scanResult : value) :
  (forall e, generateFallback scanResult = Throw e
             <-> Legacy.generate scanResult = Throw e)
  /\ (forall p l,
        generateFallback scanResult = Ok p ->
        Legacy.generate scanResult = Ok l ->
        (noAction p = false -> steps p = l)
        /\ (noAction p = true ->
            l = [] \/ exists lic, license_step_shape lic
                                  /\ l = lic ++ [no_vulnerabilities_step])).
Proof.
  unfold generateFallback, Legacy.generate.
  destruct (negb (Js.truthy scanResult) || negb (Js.typeof_object scanResult)).
  { split; [intros e; split; discriminate |].
    intros p l [= <-] [= <-]. split; [discriminate | left; reflexivity]. }
  destruct (Js.get scanResult "repositoryAccessible") as [accessible | e0]; cbn [bind].
  2:{ split; [intros e; split; intros [= ->]; reflexivity | intros p l H; discriminate H]. }
  destruct (negb (Js.truthy accessible)).
  { split; [intros e; split; discriminate |].
    intros p l [= <-] [= <-]. split; [reflexivity | discriminate]. }
  destruct (Js.get scanResult "issues") as [issues | e0]; cbn [bind].
  2:{ split; [intros e; split; intros [= ->]; reflexivity | intros p l H; discriminate H]. }
  destruct issues as [| | | | | issues |];
    try (split; [intros e; split; discriminate |];
         intros p l [= <-] [= <-]; split; [discriminate | left; reflexivity]).
  destruct (severity_steps issues) as [by_severity | e0] eqn:Hs; cbn [bind].
  2:{ split; [intros e; split; intros [= ->]; reflexivity | intros p l H; discriminate H]. }
  destruct (license_steps scanResult) as [for_licenses | e0] eqn:Hl; cbn [bind].
  2:{ split; [intros e; split; intros [= ->]; reflexivity | intros p l H; discriminate H]. }
  destruct issues as [| i issues]; simpl.
  - split; [intros e; split; discriminate |].
    intros p l [= <-] [= <-]. split; [discriminate |].
    intros _. right. exists for_licenses.
    split; [exact (license_steps_spec _ _ Hl) |].
    vm_compute in Hs. injection Hs as <-. reflexivity.
  - split; [intros e; split; discriminate |].
    intros p l [= <-] [= <-]. split; [reflexivity | discriminate].
Qed.

Lemma planners_agree_witness :
  steps (mkPlan (Str "Resolve High vulnerabilities first (lodash)." :: closing_steps)
                false "fallback")
  = Str "Resolve High vulnerabilities first (lodash)." :: closing_steps.
Proof.
  apply (proj2 (planners_agree one_issue_report)
           (mkPlan (Str "Resolve High vulnerabilities first (lodash)." :: closing_steps)
                   false "fallback")
           (Str "Resolve High vulnerabilities first (lodash)." :: closing_steps)).
  - vm_compute. reflexivity.
  - vm_compute. reflexivity.
  - reflexivity.
Defined.

(** ** The delegated path *)



Lemma trim_start_id (s : string) : no_space_at_start s -> Text.trim_start s = s.
Proof. destruct s as [| c s]; simpl; [reflexivity |]. intros ->. reflexivity. Qed.

Lemma trim_end_id (s : string) : no_space_at_end s -> Text.trim_end s = s.
Proof.
  unfold no_space_at_end.
  induction s as [| c s IH]; [reflexivity |].
  destruct s as [| d t].
  - simpl. intros ->. reflexivity.
  - intros H. change (last_char (String c (String d t))) with (last_char (String d t)) in H.
    specialize (IH H).
    change (Text.trim_end (String c (String d t)))
      with (match Text.trim_end (String d t) with
            | EmptyString => if Text.is_space c then EmptyString else String c EmptyString
            | rest => String c rest
            end).
    rewrite IH. reflexivity.
Qed.

(** Trimming a trimmed text changes nothing. *)
Lemma trim_idempotent (s : string) : Text.trim (Text.trim s) = Text.trim s.
Proof.
  destruct (trim_spec s) as (l & r & _ & _ & _ & Hs & He).
  unfold Text.trim at 1. rewrite (trim_start_id _ Hs). apply trim_end_id, He.
Qed.

Lemma extractText_nonblank_or_empty (response : value) (text : string) :
  extractText response = Ok text ->
  text = "" \/ Text.nonempty (Text.trim text) = true.
Proof.
  unfold extractText.
  destruct (negb (Js.truthy response)); [intros [= <-]; left; reflexivity |].
  intros H. inv_bind H.
  destruct a as [| | | | t | |];
    try (inv_bind H; inv_bind H; inv_bind H; injection H as <-;
         rewrite trim_idempotent;
         destruct (Text.trim a1); [left | right]; reflexivity).
  destruct (Text.nonempty (Text.trim t)) eqn:Ht.
  - injection H as <-. right. exact Ht.
  - inv_bind H. inv_bind H. inv_bind H. injection H as <-.
    rewrite trim_idempotent.
    destruct (Text.trim a1); [left | right]; reflexivity.
Qed.

(** X6.  The text [extractText] hands on is never made of white space
    only: it is empty, or it has something other than white space.  (The
    text of [output_text] is handed on as it is; the text collected from
    the content blocks is trimmed, and what [trim] returns has no white
    space at either end.) *)
Theorem extractText_not_blank (response : value) (text : string) :
  extractText response = Ok text ->
  (text = "" \/ Text.nonempty (Text.trim text) = true)
  /\ (Js.typeof_string (Js.get_opt response "output_text") = false ->
      no_space_at_start text /\ no_space_at_end text).
Proof.
  intros H. split; [exact (extractText_nonblank_or_empty response text H) |].
  unfold extractText in H.
  destruct (negb (Js.truthy response)); [injection H as <-; split; exact I |].
  inv_bind H. apply get_Ok in Hm. subst a. intros Hs.
  destruct (Js.get_opt response "output_text"); try discriminate Hs;
    inv_bind H; inv_bind H; inv_bind H; injection H as <-;
    destruct (trim_spec a1) as (l & r & _ & _ & _ & H1 & H2); split; assumption.
Qed.

Lemma extractText_not_blank_witness :
  ("{}" = "" \/ Text.nonempty (Text.trim "{}") = true)
  /\ (Js.typeof_string Undefined = false ->
      no_space_at_start "{}" /\ no_space_at_end "{}").
Proof.
  apply (extractText_not_blank
           (Obj [("output", Arr [Obj [("content",
                   Arr [Obj [("type", Str "output_text"); ("text", Str "  {}  ")]])]])])).
  vm_compute. reflexivity.
Defined.

(** X7.  A plan comes out of the delegated path only when an agent is
    there, the call was answered, the answer held text that is not blank,
    and that text parsed to something other than [null]; the plan then holds
    the truthy entries of the declared steps and no other, so it never holds
    an empty or [null] step, and its [noAction] is the declared [no_action]
    or the absence of steps. *)
Theorem delegated_plan_spec (JSON_parse : string -> Exn value)
  (this : Agent) (remote : Remote) (p : Plan) :
  fst (generateWithOpenAI JSON_parse this remote) = Some p ->
  Js.truthy (fst (ensureAgent this remote)) = true
  /\ exists response text parsed,
       responses_create remote = Resolved response
       /\ extractText response = Ok text
       /\ Text.nonempty (Text.trim text) = true
       /\ JSON_parse text = Ok parsed
       /\ Js.nullish parsed = false
       /\ p = mkPlan (declared_steps parsed)
                     (Js.truthy (Js.get_opt parsed "no_action")
                      || (length (declared_steps parsed) =? 0)%nat)
                     "openai"
       /\ Forall (fun step => Js.truthy step = true) (steps p).
Proof.
  unfold generateWithOpenAI.
  destruct (ensureAgent this remote) as [agent this'] eqn:Ha. cbn [fst].
  destruct (Js.truthy agent) eqn:Ht; cbn [negb fst]; [| discriminate].
  destruct (request_plan JSON_parse remote) as [q | e] eqn:Hq; cbn; [| discriminate].
  intros [= <-]. split; [reflexivity |].
  unfold request_plan in Hq.
  destruct (responses_create remote) as [response | e]; [| discriminate Hq].
  cbn [bind] in Hq. inv_bind Hq.
  destruct (Text.nonempty a) eqn:Hn; cbn [negb] in Hq; [| discriminate Hq].
  inv_bind Hq. inv_bind Hq. inv_bind Hq. injection Hq as <-.
  assert (Hnull : Js.nullish a0 = false).
  { destruct a0; simpl in *; try reflexivity; discriminate. }
  apply get_Ok in Hm1, Hm2. subst a1 a2.
  exists response, a, a0.
  split; [reflexivity |]. split; [exact Hm |].
  split.
  { destruct (extractText_nonblank_or_empty response a Hm) as [-> | H];
      [discriminate Hn | exact H]. }
  split; [exact Hm0 |]. split; [exact Hnull |].
  split; [reflexivity |].
  cbn [steps]. unfold declared_steps.
  destruct (Js.get_opt a0 "steps"); try constructor.
  apply Forall_forall. intros x Hx. apply filter_In in Hx. apply Hx.
Qed.

Lemma delegated_plan_spec_witness :
  Js.truthy (fst (ensureAgent fresh_agent (answering declared_text))) = true.
Proof.
  apply (delegated_plan_spec (parse_only declared_text declared_value) fresh_agent
           (answering declared_text)
           (mkPlan [Str "Upgrade lodash."] true "openai")).
  vm_compute. reflexivity.
Defined.

(** ** The normaliser: target files *)

Lemma fold_hints_add_first_seen (l acc : list string) :
  fold_left hints_add l acc
  = acc ++ filter (fun y => negb (existsb (String.eqb y) acc)) (first_seen l).
Proof.
  revert acc. induction l as [| x l IH]; intros acc; simpl.
  - rewrite app_nil_r. reflexivity.
  - unfold hints_add at 2.
    destruct (existsb (String.eqb x) acc) eqn:Hx; simpl.
    + rewrite IH. f_equal.
      rewrite filter_filter_and. apply filter_ext_in. intros y _.
      destruct (String.eqb_spec x y) as [<- | Hne]; simpl; [| reflexivity].
      rewrite Hx. reflexivity.
    + rewrite IH, <- app_assoc. simpl. f_equal. f_equal.
      rewrite filter_filter_and. apply filter_ext_in. intros y _.
      rewrite existsb_app. simpl. rewrite orb_false_r.
      rewrite (String.eqb_sym y x).
      destruct (String.eqb x y); simpl;
        [rewrite orb_true_r | rewrite orb_false_r]; reflexivity.
Qed.

Lemma fold_pushTarget (candidates : list value) (acc : list string) :
  fold_left pushTarget candidates acc
  = fold_left hints_add (target_texts candidates) acc.
Proof.
  revert acc. induction candidates as [| v l IH]; intros acc; [reflexivity |].
  destruct v as [| | | | s | |]; simpl; try apply IH.
  destruct (Text.nonempty (Text.trim s)); simpl; rewrite IH; reflexivity.
Qed.

Lemma collect_targets_fold (payload : value) :
  collect_targets payload = fold_left pushTarget (target_candidates payload) [].
Proof.
  unfold collect_targets, target_candidates. simpl.
  destruct (Js.get_opt payload "targetFiles"); reflexivity.
Qed.

Lemma target_texts_trimmed (candidates : list value) :
  Forall (fun f => Text.nonempty f = true /\ Text.trim f = f) (target_texts candidates).
Proof.
  induction candidates as [| v l IH]; simpl; [constructor |].
  destruct v as [| | | | s | |]; try exact IH.
  destruct (Text.nonempty (Text.trim s)) eqn:Hn; [| exact IH].
  constructor; [| exact IH]. split; [exact Hn | apply trim_idempotent].
Qed.

(** X8.  The target files of a report are the trimmed texts of the
    payload's [displayTargetFile], [targetFile] and [targetFiles] entries
    that are strings and not blank, each once, in the order they first come;
    so they are distinct, none is empty or has white space around it, and
    the primary target file is the first of them, or [null] when there is
    none. *)
Theorem scanTargetFiles_spec (payload : value) (context : Context) (r : Report) :
  formatSnykPayload payload context = Ok r ->
  scanTargetFiles r = first_seen (target_texts (target_candidates payload))
  /\ NoDup (scanTargetFiles r)
  /\ Forall (fun f => Text.nonempty f = true /\ Text.trim f = f) (scanTargetFiles r)
  /\ primaryTargetFile r = match scanTargetFiles r with
                           | [] => Null
                           | first :: _ => Str first
                           end.
Proof.
  unfold formatSnykPayload. intros H.
  inv_bind H. inv_bind H. inv_bind H. injection H as <-.
  cbn [scanTargetFiles primaryTargetFile].
  assert (Hc : collect_targets payload
               = first_seen (target_texts (target_candidates payload))).
  { rewrite collect_targets_fold, fold_pushTarget, fold_hints_add_first_seen. simpl.
    induction (first_seen _) as [| x xs IH]; simpl; [reflexivity |].
    rewrite IH. reflexivity. }
  rewrite Hc.
  assert (Hall : Forall (fun f => Text.nonempty f = true /\ Text.trim f = f)
                        (first_seen (target_texts (target_candidates payload)))).
  { apply Forall_forall. intros f Hf. apply (proj1 (first_seen_In _ _)) in Hf.
    pose proof (target_texts_trimmed (target_candidates payload)) as Ht.
    rewrite Forall_forall in Ht. apply Ht, Hf. }
  split; [reflexivity |]. split; [apply first_seen_NoDup |]. split; [exact Hall |].
  destruct (first_seen _) as [| f fs]; [reflexivity |].
  inversion Hall as [| ? ? [Hf _] _]; subst.
  unfold Js.or. simpl. rewrite Hf. reflexivity.
Qed.

Lemma scanTargetFiles_spec_witness :
  exists r,
    formatSnykPayload
      (Obj [("displayTargetFile", Str " package.json ");
            ("targetFiles", Arr [Str "package.json"; Num 3; Str "  "; Str "yarn.lock"])])
      sample_context = Ok r
    /\ scanTargetFiles r = ["package.json"; "yarn.lock"]
    /\ primaryTargetFile r = Str "package.json".
Proof.
  eexists. split; [vm_compute; reflexivity |].
  pose proof (scanTargetFiles_spec
                (Obj [("displayTargetFile", Str " package.json ");
                      ("targetFiles",
                       Arr [Str "package.json"; Num 3; Str "  "; Str "yarn.lock"])])
                sample_context _ eq_refl) as (Hfiles & _ & _ & Hprimary).
  split; [exact Hfiles | exact Hprimary].
Defined.

(** ** The hints of a severity step *)

Lemma hints_add_In (s : list string) (y x : string) :
  In x (hints_add s y) <-> In x s \/ x = y.
Proof.
  unfold hints_add. destruct (existsb (String.eqb y) s) eqn:He.
  - split; [tauto |]. intros [H | ->]; [exact H |].
    apply existsb_exists in He. destruct He as (z & Hz & Heq).
    apply String.eqb_eq in Heq. subst z. exact Hz.
  - rewrite in_app_iff. simpl. intuition congruence.
Qed.

Lemma hints_add_NoDup (s : list string) (y : string) :
  NoDup s -> NoDup (hints_add s y).
Proof.
  intros H. unfold hints_add. destruct (existsb (String.eqb y) s) eqn:He; [exact H |].
  apply NoDup_app; [exact H | constructor; [intros [] | constructor] |].
  intros x Hx [-> | []].
  assert (Ht : existsb (String.eqb x) s = true).
  { apply existsb_exists. exists x. split; [exact Hx | apply String.eqb_refl]. }
  rewrite Ht in He. discriminate He.
Qed.

Lemma collect_fix_hints_spec (issues : list value) :
  forall acc hints,
    collect_fix_hints acc issues = Ok hints ->
    (forall x, In x hints <->
               In x acc
               \/ (x = upgrade_hint /\ existsb can_upgrade issues = true)
               \/ (x = patch_hint /\ existsb patched issues = true))
    /\ (NoDup acc -> NoDup hints).
Proof.
  induction issues as [| issue issues IH]; simpl; intros acc hints H.
  - injection H as <-. split; [| tauto]. intros x. split; [tauto |].
    intros [Hx | [[_ Hf] | [_ Hf]]]; [exact Hx | discriminate Hf | discriminate Hf].
  - inv_bind H. unfold add_fix_hints in Hm.
    inv_bind Hm. inv_bind Hm. injection Hm as <-.
    apply get_Ok in Hm0, Hm1. subst a0 a1.
    destruct (IH _ _ H) as [Hin Hnd]. clear IH H.
    unfold can_upgrade at 1, patched at 1.
    split.
    + intros x. rewrite Hin. clear Hin Hnd.
      destruct (Js.truthy (Js.get_opt issue "isPatched")).
      * rewrite hints_add_In.
        destruct (Js.get_opt issue "upgradePath") as [| | | | | path |];
          try (cbn [orb]; fold patch_hint; intuition congruence).
        destruct (existsb Js.truthy path); cbn [orb];
          [rewrite hints_add_In |]; fold patch_hint upgrade_hint; intuition congruence.
      * destruct (Js.get_opt issue "upgradePath") as [| | | | | path |];
          try (cbn [orb]; intuition congruence).
        destruct (existsb Js.truthy path); cbn [orb];
          [rewrite hints_add_In |]; fold upgrade_hint; intuition congruence.
    + intros Hacc. apply Hnd.
      destruct (Js.truthy (Js.get_opt issue "isPatched"));
        destruct (Js.get_opt issue "upgradePath") as [| | | | | path |];
        try (apply hints_add_NoDup); try exact Hacc;
        destruct (existsb Js.truthy path);
        try (apply hints_add_NoDup); exact Hacc.
Qed.

(** X9.  The hints collected for the issues of a bucket are the upgrade
    hint when some issue has an upgrade path (an array) with a truthy entry,
    and the patch hint when some issue is patched; nothing else, and neither
    twice. *)
Theorem fix_hints_spec (issues : list value) (hints : list string) :
  collect_fix_hints [] issues = Ok hints ->
  (In upgrade_hint hints <-> existsb can_upgrade issues = true)
  /\ (In patch_hint hints <-> existsb patched issues = true)
  /\ (forall x, In x hints -> x = upgrade_hint \/ x = patch_hint)
  /\ NoDup hints
  /\ length hints <= 2.
Proof.
  intros H. destruct (collect_fix_hints_spec issues [] hints H) as [Hin Hnd].
  assert (Hneq : upgrade_hint <> patch_hint) by discriminate.
  assert (Honly : forall x, In x hints -> x = upgrade_hint \/ x = patch_hint).
  { intros x Hx. apply Hin in Hx. simpl in Hx. tauto. }
  split; [rewrite Hin; simpl; intuition congruence |].
  split; [rewrite Hin; simpl; intuition congruence |].
  split; [exact Honly |].
  specialize (Hnd (NoDup_nil _)). split; [exact Hnd |].
  apply (NoDup_incl_length Hnd (l' := [upgrade_hint; patch_hint])).
  intros x Hx. destruct (Honly x Hx) as [-> | ->]; simpl; auto.
Qed.

Lemma fix_hints_spec_witness :
  In patch_hint [patch_hint; upgrade_hint]
  <-> existsb patched
        [Obj [("isPatched", Bool true)];
         Obj [("upgradePath", Arr [Str "lodash@4.17.21"])]] = true.
Proof.
  apply (fix_hints_spec
           [Obj [("isPatched", Bool true)];
            Obj [("upgradePath", Arr [Str "lodash@4.17.21"])]]
           [patch_hint; upgrade_hint]).
  vm_compute. reflexivity.
Defined.

(** ** The normaliser: defaults and failures *)

(** Printing a value fails with a [TypeError] and nothing else. *)
Lemma to_string_throws : forall (v : value) (e : error),
  Js.to_string v = Throw e -> e = TypeError.
Proof.
  fix IH 1. intros [| | b | n | s | items | props] e; simpl; try discriminate.
  - destruct b; discriminate.
  - intros H.
    destruct (mapM (fun x => if Js.nullish x then Ok "" else Js.to_string x) items)
      as [parts | e'] eqn:Hp; simpl in H; [discriminate H |].
    injection H as <-. revert e' Hp.
    induction items as [| x items IHitems]; simpl; intros e' Hp; [discriminate Hp |].
    destruct (Js.nullish x).
    + simpl in Hp.
      destruct (mapM _ items) as [ps | e''] eqn:Hps; simpl in Hp; [discriminate Hp |].
      injection Hp as <-. apply (IHitems e'' eq_refl).
    + destruct (Js.to_string x) as [sx | ex] eqn:Hx; simpl in Hp.
      * destruct (mapM _ items) as [ps | e''] eqn:Hps; simpl in Hp; [discriminate Hp |].
        injection Hp as <-. apply (IHitems e'' eq_refl).
      * injection Hp as <-. apply (IH x ex Hx).
  - destruct (Js.has_own "toString" props); [intros [= <-]; reflexivity | discriminate].
Qed.

Lemma get_throws (v : value) (k : string) (e : error) :
  Js.get v k = Throw e -> e = TypeError.
Proof. destruct v; simpl; intros H; try discriminate H; injection H as <-; reflexivity. Qed.

Lemma mapM_Forall {A B : Type} (f : A -> Exn B) (P : B -> Prop) (l : list A) :
  (forall a b, f a = Ok b -> P b) ->
  forall l', mapM f l = Ok l' -> Forall P l'.
Proof.
  intros Hf. induction l as [| a l IH]; simpl; intros l' H.
  - injection H as <-. constructor.
  - inv_bind H. inv_bind H. injection H as <-.
    constructor; [exact (Hf _ _ Hm) | exact (IH _ Hm0)].
Qed.

Lemma mapM_throws {A B : Type} (f : A -> Exn B) (l : list A) (e : error) :
  mapM f l = Throw e -> exists a, In a l /\ f a = Throw e.
Proof.
  induction l as [| a l IH]; simpl; [discriminate |].
  destruct (f a) as [b | e'] eqn:Hf; simpl.
  - destruct (mapM f l) as [bs | e'']; simpl; [discriminate |].
    intros [= <-]. destruct (IH eq_refl) as (x & Hx & Hfx). eauto.
  - intros [= <-]. eauto.
Qed.

Lemma mapM_total {A B : Type} (f : A -> Exn B) (l : list A) :
  Forall (fun a => exists b, f a = Ok b) l -> exists l', mapM f l = Ok l'.
Proof.
  induction 1 as [| a l [b Hb] _ [l' Hl']]; simpl; [eauto |].
  rewrite Hb, Hl'. simpl. eauto.
Qed.

Lemma or_truthy_or (a d : value) : truthy_or d (Js.or a d).
Proof.
  unfold truthy_or, Js.or. destruct (Js.truthy a) eqn:Ha; [left; exact Ha | right; reflexivity].
Qed.

Lemma or_truthy (a d : value) : Js.truthy d = true -> Js.truthy (Js.or a d) = true.
Proof. unfold Js.or. intros Hd. destruct (Js.truthy a) eqn:Ha; assumption. Qed.

(** X10.  In every report of the normaliser the project name is truthy
    (there is always a name to show); the project type, the repository
    location, the command and the primary target file are truthy or [null],
    and the dependency count is never [undefined]; the repository counts as
    accessible and the payload is kept as it came.  In every issue the
    reference and the publication time are truthy or [null], the upgrade
    path is truthy (an empty list when the payload had none) and the patched
    flag is truthy or [false]; in every license finding the reference is
    truthy or [null]. *)
Theorem report_defaults (payload : value) (context : Context) (r : Report) :
  formatSnykPayload payload context = Ok r ->
  Js.truthy (projectName r) = true
  /\ truthy_or Null (projectType r)
  /\ truthy_or Null (repositoryUrl r)
  /\ truthy_or Null (snykCommand r)
  /\ truthy_or Null (primaryTargetFile r)
  /\ dependencyCount r <> Undefined
  /\ repositoryAccessible r = true
  /\ raw r = payload
  /\ Forall (fun i => truthy_or Null (Issue.url i)
                      /\ truthy_or Null (Issue.publicationTime i)
                      /\ Js.truthy (Issue.upgradePath i) = true
                      /\ truthy_or (Bool false) (Issue.isPatched i))
            (issues r)
  /\ Forall (fun l => truthy_or Null (License.url l)) (licenses r).
Proof.
  unfold formatSnykPayload. intros H.
  inv_bind H. inv_bind H. inv_bind H. injection H as <-. simpl.
  split; [apply or_truthy; reflexivity |].
  split; [apply or_truthy_or |]. split; [apply or_truthy_or |].
  split; [apply or_truthy_or |].
  split.
  { destruct (collect_targets payload) as [| f fs]; [right; reflexivity |].
    apply or_truthy_or. }
  split.
  { unfold coalesce.
    destruct (Js.get_opt payload "dependencyCount"); simpl; try discriminate;
      destruct (Js.get_opt (Js.get_opt payload "summary") "dependencyCount");
      simpl; discriminate. }
  split; [reflexivity |]. split; [reflexivity |].
  split.
  - apply (mapM_Forall format_issue _ (raw_issues payload)); [| exact Hm0].
    intros item i Hi. unfold format_issue in Hi.
    repeat (let a := fresh "a" in let Hm := fresh "Hm" in
            apply bind_Ok in Hi; destruct Hi as (a & Hm & Hi)).
    injection Hi as <-. simpl.
    split; [apply or_truthy_or |]. split; [apply or_truthy_or |].
    split; [apply or_truthy; reflexivity | apply or_truthy_or].
  - apply (mapM_Forall format_license _ (raw_licenses payload)); [| exact Hm1].
    intros item l Hl. unfold format_license in Hl.
    repeat (let a := fresh "a" in let Hm := fresh "Hm" in
            apply bind_Ok in Hl; destruct Hl as (a & Hm & Hl)).
    injection Hl as <-. simpl. apply or_truthy_or.
Qed.

Lemma report_defaults_witness :
  exists r, formatSnykPayload mixed_payload sample_context = Ok r
            /\ Js.truthy (projectName r) = true.
Proof.
  eexists. split; [vm_compute; reflexivity |].
  apply (report_defaults mixed_payload sample_context). vm_compute. reflexivity.
Defined.

Lemma count_items_throws (issues : list value) :
  forall c e, count_items c issues = Throw e -> e = TypeError.
Proof.
  induction issues as [| item issues IH]; simpl; intros c e H; [discriminate H |].
  destruct (count_item c item) as [c' | e'] eqn:Hc; simpl in H.
  - exact (IH _ _ H).
  - injection H as <-. unfold count_item in Hc.
    destruct (Js.get item "severity") as [sev | e0] eqn:Hg; simpl in Hc.
    + destruct (Js.truthy sev); [| discriminate Hc].
      destruct (Js.to_string sev) as [k | e0] eqn:Hk; simpl in Hc; [discriminate Hc |].
      injection Hc as <-. exact (to_string_throws _ _ Hk).
    + injection Hc as <-. exact (get_throws _ _ _ Hg).
Qed.

Lemma count_items_nullish (issues : list value) :
  Exists (fun item => Js.nullish item = true) issues ->
  forall c, exists e, count_items c issues = Throw e.
Proof.
  induction 1 as [item issues Hn | item issues _ IH]; intros c; simpl.
  - unfold count_item. rewrite (get_nullish item "severity" Hn). simpl. eauto.
  - destruct (count_item c item) as [c' | e]; simpl; [apply IH | eauto].
Qed.

Lemma scalar_to_string (v : value) : scalar v = true -> exists s, Js.to_string v = Ok s.
Proof. destruct v as [| | [] | | | |]; simpl; intros H; try discriminate H; eauto. Qed.

Lemma count_items_total (issues : list value) :
  Forall (fun item => Js.nullish item = false
                      /\ scalar (Js.get_opt item "severity") = true) issues ->
  forall c, exists c', count_items c issues = Ok c'.
Proof.
  induction 1 as [| item issues [Hn Hs] _ IH]; intros c; simpl; [eauto |].
  unfold count_item. rewrite (get_Ok_opt item "severity" Hn). cbn [bind].
  destruct (Js.truthy (Js.get_opt item "severity")).
  - destruct (scalar_to_string _ Hs) as [k ->]. cbn [bind]. apply IH.
  - cbn [bind]. apply IH.
Qed.

Lemma format_issue_total (item : value) :
  Js.nullish item = false -> exists i, format_issue item = Ok i.
Proof.
  intros Hn. unfold format_issue. rewrite !(get_Ok_opt item _ Hn). cbn [bind]. eauto.
Qed.

Lemma format_license_total (item : value) :
  Js.nullish item = false -> exists l, format_license item = Ok l.
Proof.
  intros Hn. unfold format_license. rewrite !(get_Ok_opt item _ Hn). cbn [bind]. eauto.
Qed.

Lemma format_issue_throws (item : value) (e : error) :
  format_issue item = Throw e -> Js.nullish item = true /\ e = TypeError.
Proof.
  intros H. destruct (Js.nullish item) eqn:Hn.
  - split; [reflexivity |]. unfold format_issue in H.
    rewrite (get_nullish item "id" Hn) in H. injection H as <-. reflexivity.
  - destruct (format_issue_total item Hn) as [i Hi]. rewrite Hi in H. discriminate H.
Qed.

Lemma format_license_throws (item : value) (e : error) :
  format_license item = Throw e -> Js.nullish item = true /\ e = TypeError.
Proof.
  intros H. destruct (Js.nullish item) eqn:Hn.
  - split; [reflexivity |]. unfold format_license in H.
    rewrite (get_nullish item "id" Hn) in H. injection H as <-. reflexivity.
  - destruct (format_license_total item Hn) as [l Hl]. rewrite Hl in H. discriminate H.
Qed.

(** X11.  The normaliser fails only with a [TypeError]; it fails whenever
    an entry of the issue list or of the license list is [null] or
    [undefined]; and it succeeds when no entry is, and every severity is a
    scalar (neither an array nor an object). *)
Theorem formatSnykPayload_failures (payload : value) (context : Context) :
  (forall e, formatSnykPayload payload context = Throw e -> e = TypeError)
  /\ (Exists (fun item => Js.nullish item = true)
             (raw_issues payload ++ raw_licenses payload) ->
      formatSnykPayload payload context = Throw TypeError)
  /\ (Forall (fun item => Js.nullish item = false
                          /\ scalar (Js.get_opt item "severity") = true)
             (raw_issues payload) ->
      Forall (fun item => Js.nullish item = false) (raw_licenses payload) ->
      exists r, formatSnykPayload payload context = Ok r).
Proof.
  assert (Hkind : forall e, formatSnykPayload payload context = Throw e -> e = TypeError).
  { unfold formatSnykPayload. intros e H.
    destruct (count_items _ (raw_issues payload)) as [c | e0] eqn:Hc; simpl in H.
    2:{ injection H as <-. exact (count_items_throws _ _ _ Hc). }
    destruct (mapM format_issue (raw_issues payload)) as [fis | e0] eqn:Hi; simpl in H.
    2:{ injection H as <-. apply mapM_throws in Hi. destruct Hi as (a & _ & Ha).
        apply (format_issue_throws a e0 Ha). }
    destruct (mapM format_license (raw_licenses payload)) as [ls | e0] eqn:Hl; simpl in H.
    2:{ injection H as <-. apply mapM_throws in Hl. destruct Hl as (a & _ & Ha).
        apply (format_license_throws a e0 Ha). }
    discriminate H. }
  split; [exact Hkind |]. split.
  - intros Hex.
    assert (Hthrow : exists e, formatSnykPayload payload context = Throw e).
    { unfold formatSnykPayload. apply Exists_app in Hex. destruct Hex as [Hex | Hex].
      - destruct (count_items_nullish _ Hex (mkCounters 0 0 0 0)) as [e ->]. simpl. eauto.
      - destruct (count_items _ (raw_issues payload)); simpl; [| eauto].
        destruct (mapM format_issue (raw_issues payload)); simpl; [| eauto].
        destruct (mapM format_license (raw_licenses payload)) as [ls | e] eqn:Hl;
          simpl; [| eauto].
        exfalso. apply Exists_exists in Hex. destruct Hex as (item & Hin & Hn).
        assert (Hall : Forall (fun item => Js.nullish item = false) (raw_licenses payload)).
        { clear Hin Hn item. revert ls Hl.
          induction (raw_licenses payload) as [| x xs IH]; intros ls Hl; [constructor |].
          simpl in Hl. inv_bind Hl. inv_bind Hl.
          constructor; [| exact (IH _ Hm0)].
          destruct (Js.nullish x) eqn:Hx; [| reflexivity].
          unfold format_license in Hm. rewrite (get_nullish x "id" Hx) in Hm.
          discriminate Hm. }
        rewrite Forall_forall in Hall. rewrite (Hall item Hin) in Hn. discriminate Hn. }
    destruct Hthrow as [e He]. rewrite He. f_equal. exact (Hkind e He).
  - intros Hi Hl. unfold formatSnykPayload.
    destruct (count_items_total _ Hi (mkCounters 0 0 0 0)) as [c ->]. cbn [bind].
    destruct (mapM_total format_issue (raw_issues payload)) as [fis ->].
    { apply Forall_forall. intros item Hin. rewrite Forall_forall in Hi.
      apply format_issue_total, (Hi item Hin). }
    cbn [bind].
    destruct (mapM_total format_license (raw_licenses payload)) as [ls ->].
    { apply Forall_forall. intros item Hin. rewrite Forall_forall in Hl.
      apply format_license_total, (Hl item Hin). }
    cbn [bind]. eauto.
Qed.

Lemma formatSnykPayload_failures_witness :
  formatSnykPayload (Obj [("vulnerabilities", Arr [Obj []; Null])]) sample_context
  = Throw TypeError.
Proof.
  apply (formatSnykPayload_failures (Obj [("vulnerabilities", Arr [Obj []; Null])])
           sample_context).
  simpl. apply Exists_cons_tl. apply Exists_cons_hd. reflexivity.
Defined.

(** ** From the normaliser to the planner *)

Lemma fold_set_add_incl (l acc : list value) (x : value) :
  In x (fold_left set_add l acc) -> In x acc \/ In x l.
Proof.
  revert acc. induction l as [| y l IH]; intros acc; simpl; [tauto |].
  intros H. apply IH in H. destruct H as [H | H]; [| tauto].
  unfold set_add in H. destruct (existsb _ acc); [tauto |].
  apply in_app_or in H. simpl in H. tauto.
Qed.

Lemma join_scalars (sep : string) (l : list value) :
  Forall (fun x => scalar x = true) l -> exists s, Js.join sep l = Ok s.
Proof.
  intros H. unfold Js.join.
  destruct (mapM_total (fun x => if Js.nullish x then Ok "" else Js.to_string x) l)
    as [parts ->]; [| simpl; eauto].
  apply Forall_forall. intros x Hx. rewrite Forall_forall in H.
  destruct (Js.nullish x); [eauto | apply scalar_to_string, H, Hx].
Qed.

(** [summarizePackages] succeeds on entries that are there and name their
    package by a scalar, and then answers [null] or a string. *)
Lemma summarizePackages_total (issues : list value) :
  Forall (fun i => Js.nullish i = false
                   /\ scalar (Js.get_opt i "packageName") = true) issues ->
  exists v, summarizePackages issues = Ok v /\ scalar v = true.
Proof.
  intros H. unfold summarizePackages.
  assert (Hn : mapM (fun issue => Js.get issue "packageName") issues
               = Ok (map (fun i => Js.get_opt i "packageName") issues)).
  { induction H as [| i l [Hi _] _ IH]; simpl; [reflexivity |].
    rewrite (get_Ok_opt i "packageName" Hi), IH. reflexivity. }
  rewrite Hn. cbn [bind].
  set (packages := filter Js.truthy (map (fun i => Js.get_opt i "packageName") issues)).
  destruct (length (firstn 5 (new_Set packages)) =? 0)%nat; [exists Null; split; reflexivity |].
  destruct (join_scalars ", " (firstn 5 (new_Set packages))) as [s ->].
  - apply Forall_forall. intros x Hx.
    apply firstn_incl in Hx. apply fold_set_add_incl in Hx.
    destruct Hx as [[] | Hx]. unfold packages in Hx.
    apply filter_In in Hx. destruct Hx as [Hx _].
    apply in_map_iff in Hx. destruct Hx as (i & <- & Hi).
    rewrite Forall_forall in H. apply (H i Hi).
  - cbn [bind]. eexists. split; reflexivity.
Qed.

Lemma collect_fix_hints_total (issues : list value) :
  Forall (fun i => Js.nullish i = false) issues ->
  forall acc, exists hints, collect_fix_hints acc issues = Ok hints.
Proof.
  induction 1 as [| i l Hi _ IH]; intros acc; simpl; [eauto |].
  unfold add_fix_hints. rewrite !(get_Ok_opt i _ Hi). cbn [bind]. apply IH.
Qed.

Lemma severity_step_total (severity : string) (issues : list value) :
  Forall (fun i => Js.nullish i = false
                   /\ scalar (Js.get_opt i "packageName") = true) issues ->
  exists steps, severity_step severity issues = Ok steps.
Proof.
  intros H. unfold severity_step. destruct issues as [| i l]; [eauto |].
  destruct (summarizePackages_total _ H) as (v & -> & Hv). cbn [bind].
  destruct (collect_fix_hints_total (i :: l)) with (acc := @nil string) as [hints ->].
  { apply Forall_forall. intros x Hx. rewrite Forall_forall in H. apply (H x Hx). }
  cbn [bind].
  destruct (Js.truthy v); [| cbn [bind]; eauto].
  destruct (scalar_to_string v Hv) as [s ->]. cbn [bind]. eauto.
Qed.

Lemma Forall_filter {A : Type} (P : A -> Prop) (f : A -> bool) (l : list A) :
  Forall P l -> Forall P (filter f l).
Proof.
  intros H. apply Forall_forall. intros x Hx. apply filter_In in Hx.
  rewrite Forall_forall in H. apply H, Hx.
Qed.

Lemma severity_steps_total (issues : list value) :
  Forall (fun i => Js.nullish i = false
                   /\ scalar (Js.get_opt i "packageName") = true) issues ->
  exists steps, severity_steps issues = Ok steps.
Proof.
  intros H. unfold severity_steps.
  assert (Hn : Forall (fun i => Js.nullish i = false) issues).
  { apply Forall_forall. intros x Hx. rewrite Forall_forall in H. apply (H x Hx). }
  simpl. rewrite !(bucket_total _ _ Hn). cbn [bind]. simpl.
  destruct (severity_step_total "critical" _ (Forall_filter _ (of_severity "critical") _ H))
    as [c ->].
  destruct (severity_step_total "high" _ (Forall_filter _ (of_severity "high") _ H))
    as [h ->].
  destruct (severity_step_total "medium" _ (Forall_filter _ (of_severity "medium") _ H))
    as [m ->].
  destruct (severity_step_total "low" _ (Forall_filter _ (of_severity "low") _ H))
    as [l ->].
  cbn [bind]. eauto.
Qed.

Lemma license_steps_total (scanResult : value) (licenses : list value) :
  Js.get scanResult "licenses" = Ok (Arr licenses) ->
  Forall (fun i => Js.nullish i = false
                   /\ scalar (Js.get_opt i "packageName") = true) licenses ->
  exists steps, license_steps scanResult = Ok steps.
Proof.
  intros Hg H. unfold license_steps. rewrite Hg. cbn [bind].
  destruct licenses as [| l ls]; [eauto |].
  destruct (summarizePackages_total _ H) as (v & -> & Hv). cbn [bind].
  destruct (Js.truthy v); [| cbn [bind]; eauto].
  destruct (scalar_to_string v Hv) as [s ->]. cbn [bind]. eauto.
Qed.

(** X12.  On a report of the normaliser the deterministic planner never
    asks to restore access; if it returns a plan, the plan says "no action"
    exactly when the report has no issue, and otherwise ends with the two
    closing steps; and it does return a plan whenever the issues and the
    license findings name their packages by scalars. *)
Theorem plan_of_report (payload : value) (context : Context) (r : Report) :
  formatSnykPayload payload context = Ok r ->
  (forall p, generateFallback (report_value r) = Ok p ->
             (noAction p = true <-> issues r = [])
             /\ steps p <> [restore_access_step]
             /\ (issues r <> [] -> exists body, steps p = body ++ closing_steps))
  /\ (Forall (fun i => scalar (Issue.packageName i) = true) (issues r) ->
      Forall (fun l => scalar (License.packageName l) = true) (licenses r) ->
      exists p, generateFallback (report_value r) = Ok p).
Proof.
  intros Hr.
  destruct (formatSnykPayload_parts payload context r Hr) as (_ & _ & _ & _ & Hacc).
  assert (Hunfold :
    generateFallback (report_value r)
    = (by_severity <- severity_steps (map issue_value (issues r)) ;;
       for_licenses <- license_steps (report_value r) ;;
       if (0 <? length (map issue_value (issues r)))%nat
       then Ok (mkPlan ((by_severity ++ for_licenses) ++ closing_steps) false "fallback")
       else Ok (mkPlan [] true "fallback"))).
  { unfold generateFallback, report_value. simpl. rewrite Hacc. reflexivity. }
  split.
  - intros p Hp. rewrite Hunfold in Hp. inv_bind Hp. inv_bind Hp.
    destruct (issues r) as [| i l]; simpl in Hp; injection Hp as <-; simpl.
    + split; [tauto |]. split; [discriminate |]. intros H. contradiction.
    + split; [split; discriminate |]. split.
      * intros E. apply (f_equal (@length value)) in E.
        rewrite length_app in E. simpl in E. lia.
      * intros _. eexists. reflexivity.
  - intros Hi Hl. rewrite Hunfold.
    destruct (severity_steps_total (map issue_value (issues r))) as [s ->].
    { apply Forall_forall. intros x Hx. apply in_map_iff in Hx.
      destruct Hx as (i & <- & Hin). rewrite Forall_forall in Hi.
      split; [reflexivity | exact (Hi i Hin)]. }
    cbn [bind].
    destruct (license_steps_total (report_value r) (map license_value (licenses r)))
      as [ls ->].
    { reflexivity. }
    { apply Forall_forall. intros x Hx. apply in_map_iff in Hx.
      destruct Hx as (l & <- & Hin). rewrite Forall_forall in Hl.
      split; [reflexivity | exact (Hl l Hin)]. }
    cbn [bind]. destruct (0 <? _)%nat; eauto.
Qed.

Lemma plan_of_report_witness :
  exists r p, formatSnykPayload mixed_payload sample_context = Ok r
              /\ generateFallback (report_value r) = Ok p
              /\ (noAction p = true <-> issues r = []).
Proof.
  eexists. eexists. split; [vm_compute; reflexivity |].
  split; [vm_compute; reflexivity |].
  apply (proj1 (plan_of_report mixed_payload sample_context _ eq_refl)).
  vm_compute. reflexivity.
Defined.

Lemma existsb_of_severity (name : string) (l : list Issue.t) :
  existsb (of_severity name) (map issue_value l) = (0 <? count_severity name l)%nat.
Proof.
  induction l as [| i l IH]; [reflexivity |].
  rewrite count_severity_cons. simpl map. simpl existsb. rewrite IH.
  change (of_severity name (issue_value i))
    with (Js.strict_eq_str (Issue.severity i) name).
  destruct (Js.strict_eq_str (Issue.severity i) name); reflexivity.
Qed.

Lemma resolve_words_app (severity rest : string) :
  (resolve_words severity ++ rest)%string
  = ("Resolve " ++ Text.capitalize severity ++ " vulnerabilities first" ++ rest)%string.
Proof.
  unfold resolve_words. rewrite append_assoc. f_equal. apply append_assoc.
Qed.

Lemma step_for_words (severity name : string) (issues steps : list value) (rest : string) :
  step_for severity issues steps ->
  In (Str (resolve_words name ++ rest)) steps ->
  In severity severityOrder -> In name severityOrder ->
  severity = name /\ existsb (of_severity severity) issues = true.
Proof.
  unfold step_for, resolve_words. intros Hs Hin Hsev Hname.
  destruct (existsb (of_severity severity) issues); [| subst steps; contradiction].
  destruct Hs as [rest' ->]. destruct Hin as [Heq | []].
  simpl in Hsev, Hname.
  destruct Hsev as [<- | [<- | [<- | [<- | []]]]];
    destruct Hname as [<- | [<- | [<- | [<- | []]]]];
    try (split; reflexivity); simpl in Heq; discriminate Heq.
Qed.

(** X13.  The summary and the plan agree: on a report of the normaliser
    with no array for a severity, the plan of the deterministic planner
    holds a step for a severity exactly when the counter of that severity
    is not zero. *)
Theorem summary_matches_plan (payload : value) (context : Context) (r : Report)
  (p : Plan) (name : string) :
  formatSnykPayload payload context = Ok r ->
  Forall (fun i => Js.isArray (Issue.severity i) = false) (issues r) ->
  generateFallback (report_value r) = Ok p ->
  In name severityOrder ->
  (0 < counter (summary r) name <-> has_step_for name p).
Proof.
  intros Hr Hf Hp Hname.
  destruct (formatSnykPayload_parts payload context r Hr) as (Hc & Hl & _ & _ & Hacc).
  assert (Hcount : counter (summary r) name = count_severity name (issues r)).
  { rewrite (count_items_spec name _ Hname _ _ _ Hc Hl Hf).
    simpl in Hname. destruct Hname as [<- | [<- | [<- | [<- | []]]]]; reflexivity. }
  assert (Hex : existsb (of_severity name) (map issue_value (issues r)) = true
                <-> 0 < counter (summary r) name).
  { rewrite existsb_of_severity, Hcount. apply Nat.ltb_lt. }
  rewrite <- Hex. clear Hex Hcount Hc Hl Hf.
  unfold generateFallback, report_value in Hp. simpl in Hp. rewrite Hacc in Hp.
  simpl in Hp. inv_bind Hp. inv_bind Hp.
  destruct (severity_steps_spec _ _ Hm) as (c & h & m & l & -> & Hcs & Hhs & Hms & Hls).
  pose proof (license_steps_spec _ _ Hm0) as Hlic.
  destruct (issues r) as [| i0 is0] eqn:Hiss.
  { simpl in Hp. injection Hp as <-. unfold has_step_for. simpl.
    split; [discriminate | intros [rest []]]. }
  simpl in Hp. injection Hp as <-. unfold has_step_for. cbn [steps].
  split.
  - intros He.
    assert (Hone : forall sev s, sev = name -> step_for sev (map issue_value (i0 :: is0)) s ->
                     exists rest, In (Str (resolve_words name ++ rest)) s).
    { intros sev s -> Hs. unfold step_for in Hs. rewrite He in Hs.
      destruct Hs as [rest ->]. exists rest. left.
      rewrite resolve_words_app. reflexivity. }
    simpl in Hname.
    destruct Hname as [Hn | [Hn | [Hn | [Hn | []]]]].
    + destruct (Hone _ _ Hn Hcs) as [rest Hin]. exists rest.
      rewrite !in_app_iff. tauto.
    + destruct (Hone _ _ Hn Hhs) as [rest Hin]. exists rest.
      rewrite !in_app_iff. tauto.
    + destruct (Hone _ _ Hn Hms) as [rest Hin]. exists rest.
      rewrite !in_app_iff. tauto.
    + destruct (Hone _ _ Hn Hls) as [rest Hin]. exists rest.
      rewrite !in_app_iff. tauto.
  - intros [rest Hin].
    assert (Hb : forall sev s, In sev severityOrder ->
                   step_for sev (map issue_value (i0 :: is0)) s ->
                   In (Str (resolve_words name ++ rest)) s ->
                   existsb (of_severity name) (map issue_value (i0 :: is0)) = true).
    { intros sev s Hsev Hs Hi.
      destruct (step_for_words sev name _ s rest Hs Hi Hsev Hname) as [<- He]. exact He. }
    rewrite !in_app_iff in Hin.
    destruct Hin as [[[Hin | [Hin | [Hin | Hin]]] | Hin] | Hin].
    + apply (Hb "critical" c); simpl; auto.
    + apply (Hb "high" h); simpl; auto.
    + apply (Hb "medium" m); simpl; auto.
    + apply (Hb "low" l); simpl; auto.
    + exfalso. unfold resolve_words in Hin.
      destruct Hlic as [-> | [pkgs ->]]; [contradiction |].
      destruct Hin as [Heq | []]. simpl in Heq. discriminate Heq.
    + exfalso. unfold resolve_words, closing_steps in Hin. simpl in Hin.
      destruct Hin as [Heq | [Heq | []]]; discriminate Heq.
Qed.

Lemma summary_matches_plan_witness :
  exists r p, formatSnykPayload mixed_payload sample_context = Ok r
              /\ generateFallback (report_value r) = Ok p
              /\ (0 < counter (summary r) "high" <-> has_step_for "high" p).
Proof.
  eexists. eexists. split; [vm_compute; reflexivity |].
  split; [vm_compute; reflexivity |].
  apply (summary_matches_plan mixed_payload sample_context).
  - vm_compute. reflexivity.
  - repeat constructor.
  - vm_compute. reflexivity.
  - simpl. auto.
Defined.

(** ** The name derived from the repository location *)

Lemma split_app_sep (sep : ascii) (a b : string) :
  Text.split sep (a ++ String sep b) = Text.split sep a ++ Text.split sep b.
Proof.
  induction a as [| c a IH]; simpl.
  - rewrite Ascii.eqb_refl. reflexivity.
  - destruct (Ascii.eqb c sep); [rewrite IH; reflexivity |].
    rewrite IH. pose proof (split_not_nil sep a) as Hn.
    destruct (Text.split sep a) as [| seg segs]; [contradiction | reflexivity].
Qed.

Lemma split_free_one (sep : ascii) (s : string) :
  free_of sep s = true -> Text.split sep s = [s].
Proof.
  induction s as [| c s IH]; simpl; [reflexivity |].
  destruct (Ascii.eqb c sep); simpl; [discriminate |].
  intros H. rewrite (IH H). reflexivity.
Qed.

Lemma last_char_app (a b : string) :
  Text.nonempty b = true -> last_char (a ++ b) = last_char b.
Proof.
  intros Hb. induction a as [| c a IH]; [reflexivity |].
  simpl. rewrite <- IH.
  destruct (a ++ b)%string eqn:E; [| reflexivity].
  destruct a; simpl in E; [subst b; discriminate Hb | discriminate E].
Qed.

Lemma slice_last_two_app {A : Type} (l : list A) (x y : A) :
  slice_last_two (l ++ [x; y]) = [x; y].
Proof.
  unfold slice_last_two. rewrite length_app. simpl.
  replace (length l + 2 - 2) with (length l + 0) by lia.
  rewrite skipn_app, Nat.add_0_r, skipn_all, Nat.sub_diag. reflexivity.
Qed.

(** X14.  For a location made of a host part, an owner and a repository
    name with [.git] at its end -- owner and name not empty and free of
    slashes, the host part not empty and not opening with white space --
    the derived name is [owner/name]. *)
Theorem deriveRepoName_owner_repo (host owner repo : string) :
  Text.nonempty host = true ->
  no_space_at_start host ->
  Text.nonempty owner = true -> free_of "/"%char owner = true ->
  Text.nonempty repo = true -> free_of "/"%char repo = true ->
  deriveRepoName (Str (host ++ "/" ++ owner ++ "/" ++ repo ++ ".git"))
  = (owner ++ "/" ++ repo)%string.
Proof.
  intros Hh Hs Ho Hfo Hr Hfr.
  unfold deriveRepoName, derive_from_text.
  assert (Htrim : Text.trim (host ++ "/" ++ owner ++ "/" ++ repo ++ ".git")
                  = (host ++ "/" ++ owner ++ "/" ++ repo ++ ".git")%string).
  { unfold Text.trim. rewrite trim_start_id.
    - apply trim_end_id. unfold no_space_at_end.
      rewrite <- !append_assoc. rewrite last_char_app by reflexivity. reflexivity.
    - destruct host; [discriminate Hh | exact Hs]. }
  rewrite Htrim.
  replace (host ++ "/" ++ owner ++ "/" ++ repo ++ ".git")%string
    with ((host ++ "/" ++ owner ++ "/" ++ repo) ++ ".git")%string
    by (rewrite !append_assoc; reflexivity).
  rewrite strip_suffix_app.
  change (host ++ "/" ++ owner ++ "/" ++ repo)%string
    with (host ++ String "/" (owner ++ String "/" repo))%string.
  rewrite !split_app_sep, (split_free_one _ _ Hfo), (split_free_one _ _ Hfr).
  rewrite filter_app. simpl. rewrite Ho, Hr.
  rewrite slice_last_two_app. reflexivity.
Qed.

Lemma deriveRepoName_owner_repo_witness :
  deriveRepoName (Str ("https://github.com" ++ "/" ++ "org" ++ "/" ++ "project" ++ ".git"))
  = ("org" ++ "/" ++ "project")%string.
Proof.
  apply (deriveRepoName_owner_repo "https://github.com" "org" "project");
    reflexivity.
Defined.

Lemma occurrences_app (c : ascii) (a b : string) :
  occurrences c (a ++ b) = occurrences c a + occurrences c b.
Proof. induction a as [| d a IH]; simpl; [reflexivity | rewrite IH; lia]. Qed.

Lemma free_of_occurrences (c : ascii) (s : string) :
  free_of c s = true -> occurrences c s = 0.
Proof.
  induction s as [| d s IH]; simpl; [reflexivity |].
  destruct (Ascii.eqb d c); simpl; [discriminate | exact IH].
Qed.

Lemma free_of_first (c : ascii) (s : string) :
  free_of c s = true -> first_char s <> Some c.
Proof.
  destruct s as [| d s]; simpl; [discriminate |].
  destruct (Ascii.eqb_spec d c); simpl; [discriminate | congruence].
Qed.

Lemma free_of_last (c : ascii) (s : string) :
  free_of c s = true -> last_char s <> Some c.
Proof.
  induction s as [| d s IH]; [discriminate |].
  simpl free_of. destruct (Ascii.eqb_spec d c) as [| Hne]; simpl; [discriminate |].
  intros H. destruct s; [congruence | apply IH, H].
Qed.

Lemma skipn_length_le {A : Type} (l : list A) :
  length (slice_last_two l) <= 2.
Proof. unfold slice_last_two. rewrite length_skipn. lia. Qed.

Lemma Forall_skipn {A : Type} (P : A -> Prop) (n : nat) (l : list A) :
  Forall P l -> Forall P (skipn n l).
Proof.
  intros H. apply Forall_forall. intros x Hx.
  rewrite Forall_forall in H. apply H.
  rewrite <- (firstn_skipn n l). apply in_or_app. right. exact Hx.
Qed.

(** X15.  Whatever the location, the derived name holds at most one
    slash, and neither opens nor ends with one. *)
Theorem deriveRepoName_shape (repoUrl : value) :
  occurrences "/"%char (deriveRepoName repoUrl) <= 1
  /\ first_char (deriveRepoName repoUrl) <> Some "/"%char
  /\ last_char (deriveRepoName repoUrl) <> Some "/"%char.
Proof.
  assert (Htext : forall s,
            occurrences "/"%char (derive_from_text s) <= 1
            /\ first_char (derive_from_text s) <> Some "/"%char
            /\ last_char (derive_from_text s) <> Some "/"%char).
  { intros s. unfold derive_from_text.
    set (parts := filter Text.nonempty
                    (Text.split "/"%char (Text.strip_suffix ".git" (Text.trim s)))).
    assert (Hparts : Forall (fun seg => free_of "/"%char seg = true
                                        /\ Text.nonempty seg = true) parts).
    { unfold parts. apply Forall_forall. intros seg Hseg.
      apply filter_In in Hseg. destruct Hseg as [Hin Hne]. split; [| exact Hne].
      pose proof (split_free "/"%char (Text.strip_suffix ".git" (Text.trim s))) as Hf.
      rewrite Forall_forall in Hf. apply Hf, Hin. }
    pose proof (skipn_length_le parts) as Hlen.
    assert (Hlast : Forall (fun seg => free_of "/"%char seg = true
                                       /\ Text.nonempty seg = true)
                           (slice_last_two parts))
      by (apply Forall_skipn, Hparts).
    destruct (slice_last_two parts) as [| a [| b [| c rest]]]; simpl in Hlen; try lia.
    - simpl. repeat split; [lia | discriminate | discriminate].
    - inversion Hlast as [| ? ? [Ha _] _]; subst. unfold Text.join. simpl.
      rewrite (free_of_occurrences _ _ Ha).
      repeat split; [lia | apply free_of_first, Ha | apply free_of_last, Ha].
    - inversion Hlast as [| ? ? [Ha Hna] Hrest]; subst.
      inversion Hrest as [| ? ? [Hb Hnb] _]; subst.
      unfold Text.join. simpl.
      rewrite occurrences_app. simpl.
      rewrite (free_of_occurrences _ _ Ha), (free_of_occurrences _ _ Hb).
      split; [lia |]. split.
      + destruct a; [discriminate Hna |]. apply (free_of_first _ _ Ha).
      + change (a ++ String "/" b)%string with (a ++ String "/" b)%string.
        rewrite (last_char_app a (String "/" b) eq_refl).
        destruct b; [discriminate Hnb |]. apply (free_of_last _ _ Hb). }
  destruct repoUrl; simpl; try apply Htext;
    repeat split; try discriminate; simpl; lia.
Qed.

(* ================================================================== *)
(** ** The request handler *)

Lemma statuses_app (a b : list event) : statuses (a ++ b) = statuses a ++ statuses b.
Proof.
  induction a as [| e a IH]; simpl; [reflexivity |].
  destruct e; simpl; rewrite IH; reflexivity.
Qed.

Lemma cleanUpDir_kinds (w : World) (dir : string) :
  statuses (cleanUpDir w dir) = []
  /\ filter is_cleanup (cleanUpDir w dir) = [CleanUpDir dir]
  /\ filter is_mkdtemp (cleanUpDir w dir) = []
  /\ length (filter is_rm (cleanUpDir w dir)) <= 1.
Proof.
  unfold cleanUpDir.
  destruct (negb (Text.nonempty dir)); simpl; [repeat split; lia |].
  destruct (rm w); simpl; repeat split; lia.
Qed.

(** [buildHelpfulErrorDetail] fails only with a [TypeError], and never on
    a scalar. *)
Lemma buildHelpfulErrorDetail_throws (details : value) (e : error) :
  buildHelpfulErrorDetail details = Throw e -> e = TypeError.
Proof.
  unfold buildHelpfulErrorDetail. intros H.
  destruct (Js.to_string (Js.or _ (Str ""))) as [text | e1] eqn:Ht; simpl in H.
  - destruct (_ || _); [| discriminate H].
    destruct (Js.to_string _) as [shown | e2] eqn:Hs in H; simpl in H; [discriminate H |].
    injection H as <-. exact (to_string_throws _ _ Hs).
  - injection H as <-. exact (to_string_throws _ _ Ht).
Qed.

Lemma buildHelpfulErrorDetail_total (details : value) :
  scalar details = true -> exists d, buildHelpfulErrorDetail details = Ok d.
Proof.
  intros Hs. unfold buildHelpfulErrorDetail.
  set (given := match details with Undefined => Str "" | _ => details end).
  assert (Hg : scalar given = true) by (unfold given; destruct details; auto).
  assert (Ho : scalar (Js.or given (Str "")) = true)
    by (unfold Js.or; destruct (Js.truthy given); auto).
  destruct (scalar_to_string _ Ho) as [text ->]. cbn [bind].
  destruct (_ || _); [| eauto].
  destruct (scalar_to_string _ Hg) as [shown ->]. cbn [bind]. eauto.
Qed.

Section HandlerProperties.

Variable JSON_parse : string -> Exn value.
Variable SNYK_COMMAND : string.

Local Abbreviation run_of := (scan_handler JSON_parse SNYK_COMMAND).

(** The status of whatever the last stage answers. *)
Lemma last_stage_status (this : Agent) (w : World) (repoUrl scanOutput : value) :
  In (fst (try_catch
             (fst (parse_and_plan JSON_parse SNYK_COMMAND this w repoUrl scanOutput))
             (fun err => (500, ErrorBody "Unable to parse Snyk output."
                                         (MessageOf err) scanOutput))))
     [200; 500; 502].
Proof.
  destruct (fst (parse_and_plan _ _ _ _ _ _)) as [[status body] | e] eqn:Hp; simpl.
  - unfold parse_and_plan in Hp.
    destruct (text <- Js.to_string scanOutput ;; JSON_parse text) as [parsed | e];
      [| discriminate Hp].
    destruct (Js.truthy _).
    + simpl in Hp. inv_bind Hp. inv_bind Hp. inv_bind Hp. injection Hp as <- _. auto.
    + destruct (formatSnykPayload parsed _) as [formatted | e]; [| discriminate Hp].
      destruct (generate _ _ _ _) as [actionPlan this']. simpl in Hp.
      inv_bind Hp. injection Hp as <- _. auto.
  - auto.
Qed.

(** X16.  A run of the handler that ends normally has sent exactly one
    response, with status 200, 400, 500 or 502; a run in which the handler
    itself fails has sent none. *)
Theorem one_response (this : Agent) (w : World) (repoUrl : value) :
  match completion (run_of this w repoUrl) with
  | Ok _ => exists status,
              statuses (trace (run_of this w repoUrl)) = [status]
              /\ In status [200; 400; 500; 502]
  | Throw _ => statuses (trace (run_of this w repoUrl)) = []
  end.
Proof.
  unfold scan_handler.
  destruct repoUrl as [| | | | url | |];
    try (simpl; exists 400; split; [reflexivity | simpl; auto]).
  destruct (negb (Text.nonempty url));
    [simpl; exists 400; split; [reflexivity | simpl; auto] |].
  destruct (mkdtemp w) as [dir | e]; [| reflexivity].
  destruct (cleanUpDir_kinds w dir) as (Hs & _).
  destruct (clone w) as [message |].
  { cbn [completion trace]. exists 400.
    rewrite !statuses_app, Hs. split; [reflexivity | simpl; auto]. }
  destruct (run_scan (exec w)) as [scanOutput | [d | e]].
  - destruct (parse_and_plan _ _ _ _ _ _) as [result this'] eqn:Hp.
    cbn [completion trace]. eexists.
    rewrite !statuses_app, Hs. split; [reflexivity |].
    pose proof (last_stage_status this w (Str url) scanOutput) as Hst.
    rewrite Hp in Hst. cbn [fst] in Hst.
    simpl in Hst |- *. tauto.
  - cbn [completion trace]. exists 500.
    rewrite !statuses_app, Hs. split; [reflexivity | simpl; auto].
  - cbn [completion trace]. rewrite !statuses_app, Hs. reflexivity.
Qed.

Lemma cleanUpDir_head (w : World) (dir : string) :
  exists rest, cleanUpDir w dir = CleanUpDir dir :: rest
               /\ forall e, In e rest -> e = FsRm dir \/ e = Warn dir.
Proof.
  unfold cleanUpDir. eexists. split; [reflexivity |].
  intros e He. destruct (negb (Text.nonempty dir)); [contradiction |].
  destruct He as [<- | He]; [left; reflexivity |].
  destruct (rm w); [| contradiction].
  destruct He as [<- | []]. right. reflexivity.
Qed.

(** X17.  The handler removes what it created and nothing else: every
    directory it cleans, removes or warns about is the workspace it created
    in this run; it calls [cleanUpDir] as many times as it created a
    workspace, once at most, and [fs.rm] at most once; and it warns only
    when the removal failed. *)
Theorem cleanup_once (this : Agent) (w : World) (repoUrl : value) :
  (forall d, In (CleanUpDir d) (trace (run_of this w repoUrl))
             \/ In (FsRm d) (trace (run_of this w repoUrl))
             \/ In (Warn d) (trace (run_of this w repoUrl)) ->
             In (Mkdtemp d) (trace (run_of this w repoUrl)))
  /\ length (filter is_cleanup (trace (run_of this w repoUrl)))
     = length (filter is_mkdtemp (trace (run_of this w repoUrl)))
  /\ length (filter is_mkdtemp (trace (run_of this w repoUrl))) <= 1
  /\ length (filter is_rm (trace (run_of this w repoUrl))) <= 1
  /\ (forall d, In (Warn d) (trace (run_of this w repoUrl)) -> rm w <> None).
Proof.
  assert (Hwarn : forall d dir, In (Warn d) (cleanUpDir w dir) -> rm w <> None).
  { intros d dir. unfold cleanUpDir. intros [H | H]; [discriminate H |].
    destruct (negb (Text.nonempty dir)); [contradiction |].
    destruct H as [H | H]; [discriminate H |].
    destruct (rm w); [discriminate | contradiction]. }
  assert (Hsimple : forall l : list event,
            (forall e, In e l -> is_respond e = true) ->
            (forall d, In (CleanUpDir d) l \/ In (FsRm d) l \/ In (Warn d) l ->
                       In (Mkdtemp d) l)
            /\ length (filter is_cleanup l) = length (filter is_mkdtemp l)
            /\ length (filter is_mkdtemp l) <= 1
            /\ length (filter is_rm l) <= 1
            /\ (forall d, In (Warn d) l -> rm w <> None)).
  { intros l Hl.
    assert (Hno : forall e, In e l -> is_respond e = false -> False).
    { intros e He Hf. rewrite (Hl e He) in Hf. discriminate Hf. }
    assert (Hnil : forall f, (forall e, f e = true -> is_respond e = false) ->
                     filter f l = []).
    { intros f Hf. induction l as [| e l IH]; [reflexivity |]. simpl.
      destruct (f e) eqn:Hfe.
      - exfalso. apply (Hno e); [left; reflexivity | apply Hf, Hfe].
      - apply IH; intros; [apply Hl | eapply Hno; [|eassumption]]; right; eassumption. }
    rewrite !Hnil by (intros [] H; try discriminate H; reflexivity).
    split; [| simpl; repeat split; try lia;
              intros d Hd; exfalso; exact (Hno _ Hd eq_refl)].
    intros d [H | [H | H]]; exfalso; exact (Hno _ H eq_refl). }
  unfold scan_handler.
  destruct repoUrl as [| | | | url | |]; cbn [trace];
    try (apply Hsimple; intros e [<- | []]; reflexivity).
  destruct (negb (Text.nonempty url)); cbn [trace];
    [apply Hsimple; intros e [<- | []]; reflexivity |].
  destruct (mkdtemp w) as [dir | e0]; cbn [trace];
    [| apply Hsimple; intros e []].
  destruct (cleanUpDir_kinds w dir) as (_ & Hc & Hm & Hr).
  assert (Hown : forall d (l : list event),
            (forall e, In e l -> In e (cleanUpDir w dir) \/ is_respond e = true
                                 \/ (exists a b, e = GitClone a b)
                                 \/ (exists a, e = RunScanner a)
                                 \/ e = Mkdtemp dir) ->
            In (CleanUpDir d) l \/ In (FsRm d) l \/ In (Warn d) l ->
            d = dir).
  { intros d l Hl H.
    assert (Hcase : forall e, In e l ->
                      (e = CleanUpDir d \/ e = FsRm d \/ e = Warn d) -> d = dir).
    { intros e He Hk. apply Hl in He.
      destruct He as [He | [He | [(a & b & He) | [(a & He) | He]]]].
      - apply In_cleanUpDir in He.
        destruct He as [He | [He | He]], Hk as [Hk | [Hk | Hk]]; congruence.
      - destruct Hk as [-> | [-> | ->]]; discriminate He.
      - destruct Hk as [Hk | [Hk | Hk]]; congruence.
      - destruct Hk as [Hk | [Hk | Hk]]; congruence.
      - destruct Hk as [Hk | [Hk | Hk]]; congruence. }
    destruct H as [H | [H | H]]; eapply Hcase; eauto. }
  assert (Hgoal : forall mid tail : list event,
            (forall e, In e mid -> (exists a, e = RunScanner a) \/ is_respond e = true) ->
            (forall e, In e tail -> is_respond e = true) ->
            forall l,
              l = [Mkdtemp dir; GitClone url (dir ++ "/repo")%string]
                    ++ mid ++ cleanUpDir w dir ++ tail ->
              (forall d, In (CleanUpDir d) l \/ In (FsRm d) l \/ In (Warn d) l ->
                         In (Mkdtemp d) l)
              /\ length (filter is_cleanup l) = length (filter is_mkdtemp l)
              /\ length (filter is_mkdtemp l) <= 1
              /\ length (filter is_rm l) <= 1
              /\ (forall d, In (Warn d) l -> rm w <> None)).
  { intros mid tail Hmid Htail l Hl.
    assert (Hall : forall e, In e l -> In e (cleanUpDir w dir) \/ is_respond e = true
                                      \/ (exists a b, e = GitClone a b)
                                      \/ (exists a, e = RunScanner a)
                                      \/ e = Mkdtemp dir).
    { intros e He. rewrite Hl, !in_app_iff in He. cbn [In] in He.
      destruct He as [[He | [He | []]] | [He | [He | He]]].
      - right. right. right. right. symmetry. exact He.
      - right. right. left. eauto.
      - destruct (Hmid e He) as [Hx | Hx]; [right; right; right; left; exact Hx |].
        right. left. exact Hx.
      - left. exact He.
      - right. left. apply Htail, He. }
    assert (Hf : forall f : event -> bool,
              (forall a, f (RunScanner a) = false) ->
              (forall e, is_respond e = true -> f e = false) ->
              filter f mid = [] /\ filter f tail = []).
    { intros f Hrun Hresp. split.
      - clear Htail Hall Hl. induction mid as [| e mid IH]; [reflexivity |]. simpl.
        destruct (Hmid e (or_introl eq_refl)) as [[a ->] | He].
        + rewrite Hrun. apply IH. intros; apply Hmid; right; assumption.
        + rewrite (Hresp e He). apply IH. intros; apply Hmid; right; assumption.
      - clear Hmid Hall Hl. induction tail as [| e tail IH]; [reflexivity |]. simpl.
        rewrite (Hresp e (Htail e (or_introl eq_refl))).
        apply IH. intros; apply Htail; right; assumption. }
    destruct (Hf is_cleanup) as [Hc1 Hc2];
      [reflexivity | intros [] H; try discriminate H; reflexivity |].
    destruct (Hf is_mkdtemp) as [Hm1 Hm2];
      [reflexivity | intros [] H; try discriminate H; reflexivity |].
    destruct (Hf is_rm) as [Hr1 Hr2];
      [reflexivity | intros [] H; try discriminate H; reflexivity |].
    split.
    { intros d H. assert (d = dir) as -> by exact (Hown d l Hall H).
      rewrite Hl. left. reflexivity. }
    rewrite Hl at 1 2 3 4.
    rewrite !filter_app, Hc, Hm, Hc1, Hc2, Hm1, Hm2, Hr1, Hr2.
    cbn [filter is_cleanup is_mkdtemp is_rm app length].
    rewrite app_nil_r.
    split; [reflexivity |]. split; [lia |]. split; [exact Hr |].
    intros d Hd. destruct (Hall _ Hd) as [He | [He | [(a & b & He) | [(a & He) | He]]]];
      try discriminate He.
    exact (Hwarn _ _ He). }
  destruct (clone w) as [message |]; cbn [trace].
  { apply (Hgoal [] [Respond 400 (ErrorBody "Failed to clone repository."
                                     (Details message) Undefined)]).
    - intros e [].
    - intros e [<- | []]. reflexivity.
    - reflexivity. }
  destruct (run_scan (exec w)) as [scanOutput | [d | e0]].
  - destruct (parse_and_plan _ _ _ _ _ _) as [result this']. cbn [trace]. cbv zeta.
    set (response := try_catch result _).
    apply (Hgoal [RunScanner (dir ++ "/repo")%string;
                  Respond (fst response) (snd response)] []).
    + intros e [<- | [<- | []]]; [left; eauto | right; reflexivity].
    + intros e [].
    + rewrite app_nil_r. rewrite <- !app_assoc. reflexivity.
  - cbn [trace].
    apply (Hgoal [RunScanner (dir ++ "/repo")%string]
                 [Respond 500 (ErrorBody "Snyk scan failed." (Details d) Undefined)]).
    + intros e [<- | []]. left. eauto.
    + intros e [<- | []]. reflexivity.
    + rewrite <- !app_assoc. reflexivity.
  - cbn [trace].
    apply (Hgoal [RunScanner (dir ++ "/repo")%string] []).
    + intros e [<- | []]. left. eauto.
    + intros e [].
    + rewrite app_nil_r. rewrite <- !app_assoc. reflexivity.
Qed.

(** X18.  The order of removal and response: the responses for a failed
    clone and for a failed scan are sent after the workspace is cleaned;
    every other response of a run that created a workspace -- the report,
    the error reported by the tool, the output that does not parse -- is
    sent first, and the workspace is cleaned after it. *)
Theorem response_and_cleanup_order (this : Agent) (w : World) (repoUrl : value)
  (dir : string) (status : nat) (body : response_body) :
  In (Mkdtemp dir) (trace (run_of this w repoUrl)) ->
  In (Respond status body) (trace (run_of this w repoUrl)) ->
  if sent_after_cleanup body
  then precedes (CleanUpDir dir) (Respond status body) (trace (run_of this w repoUrl))
  else precedes (Respond status body) (CleanUpDir dir) (trace (run_of this w repoUrl)).
Proof.
  unfold scan_handler.
  destruct repoUrl as [| | | | url | |]; cbn [trace];
    try (intros Hin; split_in Hin; other_event).
  destruct (negb (Text.nonempty url)); cbn [trace];
    [intros Hin; split_in Hin; other_event |].
  destruct (mkdtemp w) as [base | e0]; cbn [trace]; [| intros []].
  destruct (cleanUpDir_head w base) as (rest & Hclean & Hrest).
  assert (Hbase : forall l : list event,
            In (Mkdtemp dir) ([Mkdtemp base; GitClone url (base ++ "/repo")%string] ++ l) ->
            (forall e, In e l -> is_mkdtemp e = false) -> base = dir).
  { intros l Hin Hl. apply in_app_or in Hin. destruct Hin as [[H | [H | []]] | H].
    - injection H as ->. reflexivity.
    - discriminate H.
    - specialize (Hl _ H). discriminate Hl. }
  assert (Hnotresp : forall e, In e (cleanUpDir w base) -> is_respond e = false
                               /\ is_mkdtemp e = false).
  { intros e He. apply In_cleanUpDir in He.
    destruct He as [-> | [-> | ->]]; split; reflexivity. }
  destruct (clone w) as [message |]; cbn [trace].
  { intros Hm Hr.
    assert (base = dir) as ->.
    { apply (Hbase _ Hm). intros e He. apply in_app_or in He.
      destruct He as [He | [<- | []]]; [apply Hnotresp, He | reflexivity]. }
    split_in Hr; try other_event.
    injection Hr as <- <-. cbn [sent_after_cleanup String.eqb orb].
    rewrite Hclean.
    exists [Mkdtemp dir; GitClone url (dir ++ "/repo")%string], rest, [].
    reflexivity. }
  destruct (run_scan (exec w)) as [scanOutput | [d | e0]].
  - destruct (parse_and_plan _ _ _ _ _ _) as [result this'] eqn:Hp.
    cbn [trace]. cbv zeta. set (response := try_catch result _).
    intros Hm Hr.
    assert (base = dir) as ->.
    { rewrite <- app_assoc in Hm. apply (Hbase _ Hm). intros e He.
      apply in_app_or in He. destruct He as [[<- | []] | He]; [reflexivity |].
      destruct He as [<- | He]; [reflexivity | apply Hnotresp, He]. }
    split_in Hr; try other_event.
    injection Hr as <- <-.
    assert (Hbody : sent_after_cleanup (snd response) = false).
    { unfold response. destruct result as [[st b] | e]; [| reflexivity].
      assert (Hr : fst (parse_and_plan JSON_parse SNYK_COMMAND this w
                          (Str url) scanOutput) = Ok (st, b))
        by (rewrite Hp; reflexivity).
      apply parse_and_plan_response in Hr.
      destruct Hr as [[dd ->] | (f & pl & ->)]; reflexivity. }
    rewrite Hbody, Hclean.
    exists [Mkdtemp dir; GitClone url (dir ++ "/repo")%string;
            RunScanner (dir ++ "/repo")%string], [], rest.
    reflexivity.
  - cbn [trace]. intros Hm Hr.
    assert (base = dir) as ->.
    { rewrite <- app_assoc in Hm. apply (Hbase _ Hm). intros e He.
      apply in_app_or in He. destruct He as [[<- | []] | He]; [reflexivity |].
      apply in_app_or in He.
      destruct He as [He | [<- | []]]; [apply Hnotresp, He | reflexivity]. }
    split_in Hr; try other_event.
    injection Hr as <- <-. cbn [sent_after_cleanup String.eqb orb].
    rewrite Hclean.
    exists [Mkdtemp dir; GitClone url (dir ++ "/repo")%string;
            RunScanner (dir ++ "/repo")%string], rest, [].
    reflexivity.
  - cbn [trace]. intros _ Hr. split_in Hr; other_event.
Qed.

(** X19.  The handler itself fails -- answers nothing -- only when the
    workspace cannot be created, or when the scan failed with no output and
    the detail of the failure cannot be printed; the workspace is then
    already cleaned.  With a standard error and a message that are scalars
    it fails only on the creation of the workspace. *)
Theorem handler_failures (this : Agent) (w : World) (repoUrl : value) (e : error) :
  completion (run_of this w repoUrl) = Throw e ->
  mkdtemp w = Throw e
  \/ exists err dir,
       mkdtemp w = Ok dir
       /\ exec w = ExecFailed err
       /\ Js.truthy (captured_stdout err) = false
       /\ buildHelpfulErrorDetail (Js.or (captured_stderr err) (err_message err))
          = Throw e
       /\ e = TypeError
       /\ scalar (Js.or (captured_stderr err) (err_message err)) = false
       /\ In (CleanUpDir dir) (trace (run_of this w repoUrl)).
Proof.
  unfold scan_handler.
  destruct repoUrl as [| | | | url | |]; cbn [completion]; try discriminate.
  destruct (negb (Text.nonempty url)); cbn [completion]; [discriminate |].
  destruct (mkdtemp w) as [dir | e0]; cbn [completion];
    [| intros [= <-]; left; reflexivity].
  destruct (clone w) as [message |]; cbn [completion]; [discriminate |].
  destruct (exec w) as [stdout | err] eqn:Hexec; unfold run_scan.
  { destruct (parse_and_plan _ _ _ _ _ _); cbn [completion]. discriminate. }
  destruct (Js.truthy (captured_stdout err)) eqn:Ht.
  { destruct (parse_and_plan _ _ _ _ _ _); cbn [completion]. discriminate. }
  destruct (buildHelpfulErrorDetail _) as [d | e0] eqn:Hd; cbn [completion trace];
    [discriminate |].
  intros [= <-]. right. exists err, dir.
  split; [reflexivity |]. split; [reflexivity |]. split; [exact Ht |].
  split; [exact Hd |].
  assert (Hkind : e0 = TypeError
                  /\ scalar (Js.or (captured_stderr err) (err_message err)) = false).
  { split; [exact (buildHelpfulErrorDetail_throws _ _ Hd) |].
    destruct (scalar (Js.or (captured_stderr err) (err_message err))) eqn:Hs;
      [| reflexivity].
    destruct (buildHelpfulErrorDetail_total _ Hs) as [d Hok].
    rewrite Hok in Hd. discriminate Hd. }
  destruct Hkind as [-> Hsc]. split; [reflexivity |]. split; [exact Hsc |].
  rewrite !in_app_iff. right. apply cleanUpDir_attempt.
Qed.

(** X20.  The handler answers 200 exactly when the location is a
    non-empty string, the workspace is created, the clone succeeds, the
    scanner leaves output, that output parses to a payload without [error]
    and [userMessage], the normaliser accepts the payload and the planner
    returns a plan; the body is then the report of that payload, normalised
    with the location and the command, and that plan for it. *)
Theorem ok_response (this : Agent) (w : World) (repoUrl : value)
  (body : response_body) :
  In (Respond 200 body) (trace (run_of this w repoUrl))
  <-> exists url dir scanOutput text parsed formatted plan,
        repoUrl = Str url /\ Text.nonempty url = true
        /\ mkdtemp w = Ok dir /\ clone w = None
        /\ run_scan (exec w) = ScanOutput scanOutput
        /\ Js.to_string scanOutput = Ok text
        /\ JSON_parse text = Ok parsed
        /\ Js.truthy (Js.or (Js.get_opt parsed "error")
                            (Js.get_opt parsed "userMessage")) = false
        /\ formatSnykPayload parsed (mkContext repoUrl (Str SNYK_COMMAND)) = Ok formatted
        /\ fst (generate JSON_parse this (remote w) (report_value formatted)) = Ok plan
        /\ body = ScanBody formatted plan.
Proof.
  split.
  - unfold scan_handler.
    destruct repoUrl as [| | | | url | |]; cbn [trace];
      try (intros Hin; split_in Hin; other_event).
    destruct (Text.nonempty url) eqn:Hurl; cbn [negb trace];
      [| intros Hin; split_in Hin; other_event].
    destruct (mkdtemp w) as [dir | e0]; cbn [trace]; [| intros []].
    destruct (clone w) as [message |]; cbn [trace];
      [intros Hin; split_in Hin; other_event |].
    destruct (run_scan (exec w)) as [scanOutput | [d | e0]]; cbn [trace];
      [| intros Hin; split_in Hin; other_event
       | intros Hin; split_in Hin; other_event].
    destruct (parse_and_plan _ _ _ _ _ _) as [result this'] eqn:Hp.
    cbn [trace]. cbv zeta. intros Hin. split_in Hin; try other_event.
    unfold parse_and_plan in Hp.
    destruct (Js.to_string scanOutput) as [text | e1] eqn:Htext; cbn [bind] in Hp;
      [| injection Hp as <- _; discriminate Hin].
    destruct (JSON_parse text) as [parsed | e1] eqn:Hparse;
      [| injection Hp as <- _; discriminate Hin].
    destruct (Js.truthy (Js.or _ _)) eqn:Herr.
    { injection Hp as <- _.
      destruct (Js.get parsed "userMessage") as [um | e1]; cbn [bind] in Hin;
        [| discriminate Hin].
      destruct (Js.get parsed "error") as [er | e1]; cbn [bind] in Hin;
        [| discriminate Hin].
      destruct (buildHelpfulErrorDetail _); cbn in Hin; discriminate Hin. }
    destruct (formatSnykPayload parsed _) as [formatted | e1] eqn:Hf;
      [| injection Hp as <- _; discriminate Hin].
    destruct (generate _ _ _ _) as [actionPlan this2] eqn:Hg.
    injection Hp as <- _.
    destruct actionPlan as [plan | e1]; cbn in Hin; [| discriminate Hin].
    injection Hin as <-.
    exists url, dir, scanOutput, text, parsed, formatted, plan.
    rewrite Hg. repeat split; assumption.
  - intros (url & dir & scanOutput & text & parsed & formatted & plan
            & -> & Hurl & Hdir & Hclone & Hscan & Htext & Hparse & Herr & Hf & Hg & ->).
    unfold scan_handler. rewrite Hurl, Hdir, Hclone, Hscan. cbn [negb].
    unfold parse_and_plan. rewrite Htext. cbn [bind]. rewrite Hparse, Herr, Hf.
    destruct (generate _ _ _ _) as [actionPlan this2]. cbn [fst] in Hg. subst actionPlan.
    cbn. auto 10.
Qed.

(** What the last stage of a run sends. *)
Lemma last_stage_response (this : Agent) (w : World) (repoUrl scanOutput : value) :
  let response :=
    try_catch (fst (parse_and_plan JSON_parse SNYK_COMMAND this w repoUrl scanOutput))
              (fun err => (500, ErrorBody "Unable to parse Snyk output."
                                  (MessageOf err) scanOutput)) in
  (exists formatted plan, response = (200, ScanBody formatted plan))
  \/ (exists text parsed d,
        Js.to_string scanOutput = Ok text
        /\ JSON_parse text = Ok parsed
        /\ buildHelpfulErrorDetail (Js.or (Js.get_opt parsed "userMessage")
                                          (Js.get_opt parsed "error")) = Ok d
        /\ response = (502, ErrorBody "Snyk scan reported an error." (Details d) Undefined))
  \/ (exists e, response = (500, ErrorBody "Unable to parse Snyk output."
                                  (MessageOf e) scanOutput)).
Proof.
  cbv zeta. unfold parse_and_plan.
  destruct (Js.to_string scanOutput) as [text | e1] eqn:Htext; cbn [bind];
    [| right; right; eexists; reflexivity].
  destruct (JSON_parse text) as [parsed | e1] eqn:Hparse;
    [| right; right; eexists; reflexivity].
  destruct (Js.truthy (Js.or _ _)) eqn:Herr.
  { assert (Hn : Js.nullish parsed = false).
    { destruct parsed; try reflexivity; discriminate Herr. }
    rewrite !(get_Ok_opt parsed _ Hn). cbn [bind fst].
    destruct (buildHelpfulErrorDetail _) as [d | e1] eqn:Hd; cbn.
    - right. left. exists text, parsed, d. repeat split; assumption.
    - right. right. eexists. reflexivity. }
  destruct (formatSnykPayload parsed _) as [formatted | e1];
    [| right; right; eexists; reflexivity].
  destruct (generate _ _ _ _) as [actionPlan this2].
  destruct actionPlan as [plan | e1]; cbn.
  - left. eauto.
  - right. right. eexists. reflexivity.
Qed.

(** X21.  Every error body the handler sends is one of five: 400 for a
    location that is not a non-empty string (nothing else happens in that
    run); 400 with the message of the failed clone; 500 ["Snyk scan failed."]
    when the scanner left no output; 502 with the detail built from
    [userMessage], or else [error], of the parsed payload; and 500
    ["Unable to parse Snyk output."] with the scanner output attached.  Only
    the last one carries the raw output. *)
Theorem error_responses (this : Agent) (w : World) (repoUrl : value)
  (status : nat) (error : string) (details : details_field) (rawOutput : value) :
  In (Respond status (ErrorBody error details rawOutput)) (trace (run_of this w repoUrl)) ->
  (status = 400 /\ error = "A valid GitHub repository URL is required."
   /\ details = NoDetails /\ rawOutput = Undefined
   /\ (forall url, repoUrl = Str url -> url = "")
   /\ trace (run_of this w repoUrl) = [Respond status (ErrorBody error details rawOutput)])
  \/ (status = 400 /\ error = "Failed to clone repository."
      /\ rawOutput = Undefined
      /\ exists message, clone w = Some message /\ details = Details message)
  \/ (status = 500 /\ error = "Snyk scan failed."
      /\ rawOutput = Undefined
      /\ exists err d, exec w = ExecFailed err
                       /\ Js.truthy (captured_stdout err) = false
                       /\ details = Details d)
  \/ (status = 502 /\ error = "Snyk scan reported an error."
      /\ rawOutput = Undefined
      /\ exists scanOutput text parsed d,
           run_scan (exec w) = ScanOutput scanOutput
           /\ Js.to_string scanOutput = Ok text
           /\ JSON_parse text = Ok parsed
           /\ buildHelpfulErrorDetail (Js.or (Js.get_opt parsed "userMessage")
                                             (Js.get_opt parsed "error")) = Ok d
           /\ details = Details d)
  \/ (status = 500 /\ error = "Unable to parse Snyk output."
      /\ run_scan (exec w) = ScanOutput rawOutput
      /\ exists e, details = MessageOf e).
Proof.
  unfold scan_handler.
  destruct repoUrl as [| | | | url | |]; cbn [trace];
    try (intros [Hin | []]; injection Hin as <- <- <- <-; left;
         repeat split; intros u Hu; discriminate Hu).
  destruct (Text.nonempty url) eqn:Hurl; cbn [negb trace].
  2:{ intros [Hin | []]. injection Hin as <- <- <- <-. left.
      repeat split. intros u [= <-]. apply nonempty_false, Hurl. }
  destruct (mkdtemp w) as [dir | e0]; cbn [trace]; [| intros []].
  destruct (clone w) as [message |]; cbn [trace].
  { intros Hin. split_in Hin; try other_event.
    injection Hin as <- <- <- <-. right. left.
    split; [reflexivity |]. split; [reflexivity |]. split; [reflexivity |]. eauto. }
  assert (Hlast : forall scanOutput,
            run_scan (exec w) = ScanOutput scanOutput ->
            forall result this',
              parse_and_plan JSON_parse SNYK_COMMAND this w (Str url) scanOutput
              = (result, this') ->
              Respond
                (fst (try_catch result
                        (fun err => (500, ErrorBody "Unable to parse Snyk output."
                                            (MessageOf err) scanOutput))))
                (snd (try_catch result
                        (fun err => (500, ErrorBody "Unable to parse Snyk output."
                                            (MessageOf err) scanOutput))))
              = Respond status (ErrorBody error details rawOutput) ->
              (status = 502 /\ error = "Snyk scan reported an error."
               /\ rawOutput = Undefined
               /\ exists so text parsed d,
                    run_scan (exec w) = ScanOutput so
                    /\ Js.to_string so = Ok text
                    /\ JSON_parse text = Ok parsed
                    /\ buildHelpfulErrorDetail (Js.or (Js.get_opt parsed "userMessage")
                                                      (Js.get_opt parsed "error")) = Ok d
                    /\ details = Details d)
              \/ (status = 500 /\ error = "Unable to parse Snyk output."
                  /\ run_scan (exec w) = ScanOutput rawOutput
                  /\ exists e, details = MessageOf e)).
  { intros scanOutput Hscan result this' Hp Heq.
    pose proof (last_stage_response this w (Str url) scanOutput) as Hr.
    cbv zeta in Hr. rewrite Hp in Hr. cbn [fst] in Hr.
    destruct Hr as [(f & pl & Hr) | [(text & parsed & d & Ht & Hpa & Hd & Hr) | [e Hr]]];
      rewrite Hr in Heq; cbn in Heq.
    - discriminate Heq.
    - injection Heq as <- <- <- <-. left.
      split; [reflexivity |]. split; [reflexivity |]. split; [reflexivity |].
      exists scanOutput, text, parsed, d. repeat split; assumption.
    - injection Heq as <- <- <- <-. right.
      split; [reflexivity |]. split; [reflexivity |]. split; [exact Hscan | eauto]. }
  destruct (run_scan (exec w)) as [scanOutput | [d | e0]] eqn:Hscan.
  - destruct (parse_and_plan _ _ _ _ _ _) as [result this'] eqn:Hp.
    cbn [trace]. cbv zeta. intros Hin. split_in Hin; try other_event.
    destruct (Hlast scanOutput eq_refl result this' Hp Hin) as [H | H];
      [do 3 right; left; exact H | do 4 right; exact H].
  - cbn [trace]. intros Hin. split_in Hin; try other_event.
    injection Hin as <- <- <- <-. right. right. left.
    unfold run_scan in Hscan. destruct (exec w) as [stdout | err]; [discriminate Hscan |].
    destruct (Js.truthy (captured_stdout err)) eqn:Ht; [discriminate Hscan |].
    split; [reflexivity |]. split; [reflexivity |]. split; [reflexivity |].
    exists err, d. split; [reflexivity |]. split; [exact Ht | reflexivity].
  - cbn [trace]. intros Hin. split_in Hin; other_event.
Qed.

End HandlerProperties.

(** ** Failures of the planner *)

Lemma bind_Throw {A B : Type} (m : Exn A) (k : A -> Exn B) (e : error) :
  bind m k = Throw e -> m = Throw e \/ exists a, m = Ok a /\ k a = Throw e.
Proof.
  destruct m as [a | e']; simpl; intros H; [right; eauto |].
  left. injection H as ->. reflexivity.
Qed.

Lemma join_throws (sep : string) (l : list value) (e : error) :
  Js.join sep l = Throw e -> e = TypeError.
Proof.
  unfold Js.join. intros H. apply bind_Throw in H.
  destruct H as [H | (parts & _ & H)]; [| discriminate H].
  apply mapM_throws in H. destruct H as (x & _ & Hx).
  destruct (Js.nullish x); [discriminate Hx | exact (to_string_throws _ _ Hx)].
Qed.

Lemma summarizePackages_throws (issues : list value) (e : error) :
  summarizePackages issues = Throw e -> e = TypeError.
Proof.
  unfold summarizePackages. intros H. apply bind_Throw in H.
  destruct H as [H | (names & _ & H)].
  - apply mapM_throws in H. destruct H as (x & _ & Hx). exact (get_throws _ _ _ Hx).
  - destruct (_ =? 0)%nat; [discriminate H |].
    apply bind_Throw in H. destruct H as [H | (s & _ & H)]; [| discriminate H].
    exact (join_throws _ _ _ H).
Qed.

Lemma collect_fix_hints_throws (issues : list value) :
  forall acc e, collect_fix_hints acc issues = Throw e -> e = TypeError.
Proof.
  induction issues as [| i issues IH]; simpl; intros acc e H; [discriminate H |].
  apply bind_Throw in H. destruct H as [H | (hints & _ & H)]; [| exact (IH _ _ H)].
  unfold add_fix_hints in H.
  apply bind_Throw in H. destruct H as [H | (u & _ & H)]; [exact (get_throws _ _ _ H) |].
  apply bind_Throw in H. destruct H as [H | (p & _ & H)]; [exact (get_throws _ _ _ H) |].
  discriminate H.
Qed.

Lemma severity_step_throws (severity : string) (issues : list value) (e : error) :
  severity_step severity issues = Throw e -> e = TypeError.
Proof.
  unfold severity_step. destruct issues as [| i l]; [discriminate |]. intros H.
  apply bind_Throw in H.
  destruct H as [H | (pk & _ & H)]; [exact (summarizePackages_throws _ _ H) |].
  apply bind_Throw in H.
  destruct H as [H | (hints & _ & H)]; [exact (collect_fix_hints_throws _ _ _ H) |].
  apply bind_Throw in H. destruct H as [H | (t & _ & H)]; [| discriminate H].
  destruct (Js.truthy pk); [| discriminate H].
  apply bind_Throw in H. destruct H as [H | (s & _ & H)]; [| discriminate H].
  exact (to_string_throws _ _ H).
Qed.

Lemma bucket_throws (severity : string) (issues : list value) (e : error) :
  bucket severity issues = Throw e -> e = TypeError.
Proof.
  unfold bucket. induction issues as [| i issues IH]; simpl; [discriminate |].
  intros H. apply bind_Throw in H. destruct H as [H | (keep & _ & H)].
  - apply bind_Throw in H. destruct H as [H | (s & _ & H)]; [| discriminate H].
    exact (get_throws _ _ _ H).
  - apply bind_Throw in H. destruct H as [H | (rest & _ & H)]; [| discriminate H].
    exact (IH H).
Qed.

Lemma severity_steps_throws (issues : list value) (e : error) :
  severity_steps issues = Throw e -> e = TypeError.
Proof.
  unfold severity_steps. intros H. apply bind_Throw in H.
  destruct H as [H | (buckets & _ & H)].
  - apply mapM_throws in H. destruct H as (sev & _ & Hs). exact (bucket_throws _ _ _ Hs).
  - apply bind_Throw in H. destruct H as [H | (per & _ & H)]; [| discriminate H].
    apply mapM_throws in H. destruct H as (sb & _ & Hs).
    exact (severity_step_throws _ _ _ Hs).
Qed.

Lemma license_steps_throws (scanResult : value) (e : error) :
  license_steps scanResult = Throw e -> e = TypeError.
Proof.
  unfold license_steps. intros H. apply bind_Throw in H.
  destruct H as [H | (licenses & _ & H)]; [exact (get_throws _ _ _ H) |].
  destruct licenses as [| | | | | [| l ls] |]; try discriminate H.
  apply bind_Throw in H.
  destruct H as [H | (pk & _ & H)]; [exact (summarizePackages_throws _ _ H) |].
  apply bind_Throw in H. destruct H as [H | (t & _ & H)]; [| discriminate H].
  destruct (Js.truthy pk); [| discriminate H].
  apply bind_Throw in H. destruct H as [H | (s & _ & H)]; [| discriminate H].
  exact (to_string_throws _ _ H).
Qed.

(** X22.  The deterministic planner fails only with a [TypeError], and
    only while it goes through the issues and license findings of an
    accessible report: it never fails on something that is not an object, on
    a report without access, or on a report whose [issues] is not an
    array. *)
Theorem generateFallback_failures (scanResult : value) (e : error) :
  generateFallback scanResult = Throw e ->
  e = TypeError
  /\ Js.truthy (Js.get_opt scanResult "repositoryAccessible") = true
  /\ exists issues, Js.get_opt scanResult "issues" = Arr issues
                    /\ (severity_steps issues = Throw TypeError
                        \/ license_steps scanResult = Throw TypeError).
Proof.
  unfold generateFallback.
  destruct (negb (Js.truthy scanResult) || negb (Js.typeof_object scanResult)) eqn:Hobj;
    [discriminate |].
  assert (Hn : Js.nullish scanResult = false).
  { destruct scanResult; try reflexivity; discriminate Hobj. }
  rewrite !(get_Ok_opt scanResult _ Hn). cbn [bind].
  destruct (Js.truthy (Js.get_opt scanResult "repositoryAccessible"));
    cbn [negb]; [| discriminate].
  destruct (Js.get_opt scanResult "issues") as [| | | | | issues |]; try discriminate.
  intros H. apply bind_Throw in H. destruct H as [H | (s & _ & H)].
  - pose proof (severity_steps_throws _ _ H) as ->.
    split; [reflexivity |]. split; [reflexivity |]. exists issues. auto.
  - apply bind_Throw in H. destruct H as [H | (l & _ & H)].
    + pose proof (license_steps_throws _ _ H) as ->.
      split; [reflexivity |]. split; [reflexivity |]. exists issues. auto.
    + destruct (0 <? length issues)%nat; discriminate H.
Qed.

Lemma generateFallback_failures_witness :
  TypeError = TypeError
  /\ Js.truthy (Js.get_opt (Obj [("repositoryAccessible", Bool true);
                                 ("issues", Arr [Null])]) "repositoryAccessible") = true
  /\ exists issues,
       Js.get_opt (Obj [("repositoryAccessible", Bool true); ("issues", Arr [Null])])
                  "issues" = Arr issues
       /\ (severity_steps issues = Throw TypeError
           \/ license_steps (Obj [("repositoryAccessible", Bool true);
                                  ("issues", Arr [Null])]) = Throw TypeError).
Proof.
  apply (generateFallback_failures
           (Obj [("repositoryAccessible", Bool true); ("issues", Arr [Null])])).
  vm_compute. reflexivity.
Defined.

(** ** The counters, for every payload *)

Lemma total_increment (c : Counters) (key : string) :
  total (increment c key) <= total c + 1.
Proof.
  unfold increment, total.
  destruct (String.eqb key "critical"); [simpl; lia |].
  destruct (String.eqb key "high"); [simpl; lia |].
  destruct (String.eqb key "medium"); [simpl; lia |].
  destruct (String.eqb key "low"); simpl; lia.
Qed.

Lemma count_items_general (name : string) (raw : list value) :
  In name severityOrder ->
  forall c c',
    count_items c raw = Ok c' ->
    counter c' name = counter c name + length (filter (counted_as name) raw)
    /\ total c' <= total c + length raw.
Proof.
  intros Hin. induction raw as [| item raw IH]; simpl; intros c c' H.
  - injection H as <-. split; lia.
  - inv_bind H. destruct (IH _ _ H) as [Hc Ht]. rewrite Hc. clear IH H Hc.
    unfold count_item in Hm. inv_bind Hm. apply get_Ok in Hm0. subst a0.
    unfold counted_as.
    destruct (Js.truthy (Js.get_opt item "severity")); cbn [andb].
    + inv_bind Hm. injection Hm as <-. rewrite Hm0.
      rewrite (counter_increment c a0 name Hin).
      pose proof (total_increment c a0).
      destruct (String.eqb a0 name); simpl; split; lia.
    + injection Hm as <-. simpl. split; lia.
Qed.

(** X23.  For every payload the normaliser accepts, each of the four
    counters is the number of raw issues whose severity is truthy and prints
    as the name of the counter (a string of that name, or an array that
    prints so), and together the counters never exceed the number of issues
    of the report. *)
Theorem counters_general (payload : value) (context : Context) (r : Report) :
  formatSnykPayload payload context = Ok r ->
  (forall name, In name severityOrder ->
                counter (summary r) name
                = length (filter (counted_as name) (raw_issues payload)))
  /\ total (summary r) <= length (issues r).
Proof.
  intros H.
  destruct (formatSnykPayload_parts payload context r H) as (Hc & Hl & _).
  split.
  - intros name Hin.
    destruct (count_items_general name _ Hin _ _ Hc) as [Hn _]. rewrite Hn.
    simpl in Hin. destruct Hin as [<- | [<- | [<- | [<- | []]]]]; reflexivity.
  - destruct (count_items_general "critical" (raw_issues payload)
                (or_introl eq_refl) _ _ Hc) as [_ Ht].
    rewrite (mapM_length _ _ _ Hl). exact Ht.
Qed.

Lemma counters_general_witness :
  exists r, formatSnykPayload array_severity_payload sample_context = Ok r
            /\ counter (summary r) "high"
               = length (filter (counted_as "high") (raw_issues array_severity_payload))
            /\ total (summary r) <= length (issues r).
Proof.
  eexists. split; [vm_compute; reflexivity |].
  destruct (counters_general array_severity_payload sample_context _ eq_refl) as [Hn Ht].
  split; [apply Hn; simpl; auto | exact Ht].
Defined.

(** ** Sample runs of the handler *)

Lemma cleanup_once_witness :
  In (Mkdtemp sample_dir) (trace unparseable_run).
Proof.
  apply (proj1 (cleanup_once (parse_only "{}" (Obj [])) sample_command no_client_agent
                  (sample_world (ExecOk (Str "not json"))) sample_url)).
  left. vm_compute. auto 10.
Defined.

Lemma response_and_cleanup_order_witness :
  precedes (Respond 500 (ErrorBody "Unable to parse Snyk output."
                           (MessageOf SyntaxError) (Str "not json")))
           (CleanUpDir sample_dir) (trace unparseable_run).
Proof.
  apply (response_and_cleanup_order (parse_only "{}" (Obj [])) sample_command
           no_client_agent (sample_world (ExecOk (Str "not json"))) sample_url
           sample_dir 500
           (ErrorBody "Unable to parse Snyk output." (MessageOf SyntaxError)
                      (Str "not json"))).
  - vm_compute. auto 10.
  - vm_compute. auto 10.
Defined.

Lemma handler_failures_witness :
  mkdtemp (sample_world (ExecFailed unprintable_failure)) = Throw TypeError
  \/ exists err dir,
       mkdtemp (sample_world (ExecFailed unprintable_failure)) = Ok dir
       /\ exec (sample_world (ExecFailed unprintable_failure)) = ExecFailed err
       /\ Js.truthy (captured_stdout err) = false
       /\ buildHelpfulErrorDetail (Js.or (captured_stderr err) (err_message err))
          = Throw TypeError
       /\ TypeError = TypeError
       /\ scalar (Js.or (captured_stderr err) (err_message err)) = false
       /\ In (CleanUpDir dir) (trace unprintable_run).
Proof.
  apply (handler_failures (parse_only "{}" (Obj [])) sample_command no_client_agent
           (sample_world (ExecFailed unprintable_failure)) sample_url TypeError).
  vm_compute. reflexivity.
Defined.

Lemma ok_response_witness :
  exists formatted plan,
    In (Respond 200 (ScanBody formatted plan)) (trace clean_run)
    /\ issues formatted = [] /\ noAction plan = true.
Proof.
  eexists. eexists. split.
  - apply (proj2 (ok_response (parse_only clean_text clean_payload) sample_command
                    no_client_agent (sample_world (ExecOk (Str clean_text)))
                    sample_url _)).
    exists "https://github.com/org/project", sample_dir, (Str clean_text), clean_text,
           clean_payload.
    eexists. eexists.
    split; [reflexivity |]. split; [reflexivity |]. split; [reflexivity |].
    split; [reflexivity |]. split; [reflexivity |]. split; [reflexivity |].
    split; [vm_compute; reflexivity |]. split; [reflexivity |].
    split; [vm_compute; reflexivity |].
    split; [vm_compute; reflexivity | reflexivity].
  - split; reflexivity.
Defined.

Lemma error_responses_witness :
  exists e, MessageOf SyntaxError = MessageOf e.
Proof.
  destruct (error_responses (parse_only "{}" (Obj [])) sample_command no_client_agent
              (sample_world (ExecOk (Str "not json"))) sample_url
              500 "Unable to parse Snyk output." (MessageOf SyntaxError)
              (Str "not json"))
    as [(H & _) | [(H & _) | [(_ & H & _) | [(H & _) | (_ & _ & _ & H)]]]];
    try discriminate H.
  - vm_compute. auto 10.
  - exact H.
Defined.
